(** * WIA blob reader (DiscIO/WIABlob.h): headers, accessors and open-time checks

    A shallow embedding of [DiscIO::WIAFileReader] as declared in
    [DiscIO/WIABlob.h]: the packed on-disk records, the constants, the
    compression-type enumeration and the inline accessors.  Integers are
    modelled as [Z] with their width written out, files as [list byte].

    The host is little-endian: the header keeps [WIA_MAGIC] "byteswapped to
    little endian" and its accessors call [Common::swap32/64]
    unconditionally.  The bodies of [Initialize] (WIABlob.cpp) and of the
    swaps (Common/Swap.h) are not among the sources; they are modelled from
    the specification and marked so where they are defined. *)

From Stdlib Require Import String.
From Stdlib Require Import ZArith List Lia Bool.
From Stdlib Require Import Init.Byte Strings.Byte.
Import ListNotations.
Local Open Scope Z_scope.

(** ** Bytes and fixed-width integers *)

Definition u8_max : Z := 0xFF.
Definition u16_max : Z := 0xFFFF.
Definition u32_max : Z := 0xFFFFFFFF.
Definition u64_max : Z := 0xFFFFFFFFFFFFFFFF.

Definition byte_to_Z (b : byte) : Z := Z.of_N (Byte.to_N b).

Definition Z_to_byte (z : Z) : byte :=
  match Byte.of_N (Z.to_N (z mod 256)) with
  | Some b => b
  | None => x00
  end.

(** Value of a byte string stored least-significant byte first: what a
    little-endian host sees when it loads the bytes into an integer. *)
Fixpoint le_decode (bs : list byte) : Z :=
  match bs with
  | [] => 0
  | b :: rest => byte_to_Z b + 256 * le_decode rest
  end.

(** Value of a byte string stored most-significant byte first. *)
Definition be_decode (bs : list byte) : Z :=
  fold_left (fun acc b => acc * 256 + byte_to_Z b) bs 0.

Fixpoint le_encode (n : nat) (z : Z) : list byte :=
  match n with
  | O => []
  | S n' => Z_to_byte z :: le_encode n' (z / 256)
  end.

Definition be_encode (n : nat) (z : Z) : list byte := rev (le_encode n z).

(** [slice f off len]: the [len] bytes of [f] at offset [off], if the file
    holds that many (a read that comes back short gives [None]). *)
Definition slice (f : list byte) (off len : nat) : option (list byte) :=
  if (off + len <=? length f)%nat then Some (firstn len (skipn off f)) else None.

(** [chunks count n l]: the first [count] consecutive pieces of [n] elements
    of [l] (fewer when [l] runs out; the last piece may be short). *)
Fixpoint chunks {A} (count : nat) (n : nat) (l : list A) : list (list A) :=
  match count with
  | O => []
  | S count' =>
      match l with
      | [] => []
      | _ => firstn n l :: chunks count' n (skipn n l)
      end
  end.

(** ** Common::swap16/32/64

    Modelled from the spec: [Common/Swap.h] is not among the sources; the
    accessors of [WIABlob.h] call [Common::swap32] and [Common::swap64], which
    the spec describes as the byte swap between big-endian and host order.
    They are written here with shifts and masks on 16, 32 and 64 bits. *)

Definition swap16 (data : Z) : Z :=
  Z.land (Z.lor (Z.shiftr data 8) (Z.shiftl data 8)) u16_max.

Definition swap32 (data : Z) : Z :=
  Z.land (Z.lor (Z.shiftl (swap16 (Z.land data u16_max)) 16)
                (swap16 (Z.shiftr data 16))) u32_max.

Definition swap64 (data : Z) : Z :=
  Z.land (Z.lor (Z.shiftl (swap32 (Z.land data u32_max)) 32)
                (swap32 (Z.shiftr data 32))) u64_max.

(** ** SHA-1 (FIPS 180-4), used for the header and table hashes *)

Module Sha1.

Definition add32 (x y : Z) : Z := (x + y) mod 2 ^ 32.

Definition rotl32 (n : Z) (x : Z) : Z :=
  Z.lor (Z.land (Z.shiftl x n) u32_max) (Z.shiftr x (32 - n)).

Definition not32 (x : Z) : Z := Z.lxor x u32_max.

Definition f (t : nat) (b c d : Z) : Z :=
  if (t <? 20)%nat then Z.lor (Z.land b c) (Z.land (not32 b) d)
  else if (t <? 40)%nat then Z.lxor (Z.lxor b c) d
  else if (t <? 60)%nat then
    Z.lor (Z.lor (Z.land b c) (Z.land b d)) (Z.land c d)
  else Z.lxor (Z.lxor b c) d.

Definition K (t : nat) : Z :=
  if (t <? 20)%nat then 0x5A827999
  else if (t <? 40)%nat then 0x6ED9EBA1
  else if (t <? 60)%nat then 0x8F1BBCDC
  else 0xCA62C1D6.

(** Message padding: a 1 bit, zeros up to 56 mod 64 bytes, then the bit
    length on 64 bits, most-significant byte first. *)
Definition pad (msg : list byte) : list byte :=
  let len := Z.of_nat (length msg) in
  msg ++ [x80] ++ repeat x00 (Z.to_nat ((55 - len) mod 64))
      ++ be_encode 8 (8 * len).

Definition words_of_block (blk : list byte) : list Z :=
  map be_decode (chunks 16 4 blk).

(** The message schedule, produced from a sliding window of 16 words. *)
Fixpoint schedule (n : nat) (w : list Z) : list Z :=
  match n with
  | O => []
  | S n' =>
      match w with
      | [] => []
      | w0 :: rest =>
          let x := Z.lxor (Z.lxor (Z.lxor (nth 13 w 0) (nth 8 w 0))
                                  (nth 2 w 0)) w0 in
          w0 :: schedule n' (rest ++ [rotl32 1 x])
      end
  end.

Definition state : Type := (Z * Z * Z * Z * Z)%type.

Definition round (s : state) (tw : nat * Z) : state :=
  let '(a, b, c, d, e) := s in
  let '(t, w) := tw in
  let temp := add32 (add32 (add32 (add32 (rotl32 5 a) (f t b c d)) e) (K t)) w in
  (temp, a, rotl32 30 b, c, d).

Definition compress (h : state) (blk : list byte) : state :=
  let w := schedule 80 (words_of_block blk) in
  let '(a, b, c, d, e) := fold_left round (combine (seq 0 80) w) h in
  let '(h0, h1, h2, h3, h4) := h in
  (add32 h0 a, add32 h1 b, add32 h2 c, add32 h3 d, add32 h4 e).

Definition init : state :=
  (0x67452301, 0xEFCDAB89, 0x98BADCFE, 0x10325476, 0xC3D2E1F0).

Definition digest (msg : list byte) : list byte :=
  let p := pad msg in
  let '(h0, h1, h2, h3, h4) :=
    fold_left compress (chunks (length p) 64 p) init in
  be_encode 4 h0 ++ be_encode 4 h1 ++ be_encode 4 h2
    ++ be_encode 4 h3 ++ be_encode 4 h4.

End Sha1.

Fixpoint bytes_eqb (a b : list byte) : bool :=
  match a, b with
  | [], [] => true
  | x :: a', y :: b' => Byte.eqb x y && bytes_eqb a' b'
  | _, _ => false
  end.

(** ** On-disk record layouts ([#pragma pack(push, 1)])

    A record is described by its fields in declaration order; with packing 1
    there is no padding, so a field's offset is the sum of the sizes before
    it. *)

#[local] Set Warnings "-register-all".
Inductive ctype : Type :=
| U8
| U16
| U32
| U64
| Arr (elem : ctype) (n : nat)
| Struct (fields : list (string * ctype)).

Fixpoint sizeof (t : ctype) : nat :=
  match t with
  | U8 => 1
  | U16 => 2
  | U32 => 4
  | U64 => 8
  | Arr elem n => n * sizeof elem
  | Struct fields =>
      (fix total (fs : list (string * ctype)) : nat :=
         match fs with
         | [] => 0
         | (_, ft) :: rest => sizeof ft + total rest
         end) fields
  end%nat.

Definition fields_of (t : ctype) : list (string * ctype) :=
  match t with
  | Struct fields => fields
  | _ => []
  end.

Fixpoint offsetof_fields (fs : list (string * ctype)) (name : string) : nat :=
  match fs with
  | [] => 0
  | (n, ft) :: rest =>
      if String.eqb n name then 0 else sizeof ft + offsetof_fields rest name
  end%nat.

Fixpoint sizeof_field (fs : list (string * ctype)) (name : string) : nat :=
  match fs with
  | [] => 0
  | (n, ft) :: rest =>
      if String.eqb n name then sizeof ft else sizeof_field rest name
  end%nat.

Definition offsetof (t : ctype) (name : string) : nat :=
  offsetof_fields (fields_of t) name.

(** The bytes of field [name] inside the image [bs] of a record of type [t]. *)
Definition field_bytes (t : ctype) (name : string) (bs : list byte) : list byte :=
  firstn (sizeof_field (fields_of t) name) (skipn (offsetof t name) bs).

(** The integer a little-endian host finds in field [name] after the record
    image was copied into the packed struct as it is. *)
Definition field_uint (t : ctype) (name : string) (bs : list byte) : Z :=
  le_decode (field_bytes t name bs).

Definition SHA1_t : ctype := Arr U8 20.
Definition WiiKey_t : ctype := Arr U8 16.

Definition WIAHeader1_t : ctype :=
  Struct [("magic", U32); ("version", U32); ("version_compatible", U32);
          ("header_2_size", U32); ("header_2_hash", SHA1_t);
          ("iso_file_size", U64); ("wia_file_size", U64);
          ("header_1_hash", SHA1_t)]%string.

Definition WIAHeader2_t : ctype :=
  Struct [("disc_type", U32); ("compression_type", U32);
          ("compression_level", U32); ("chunk_size", U32);
          ("disc_header", Arr U8 0x80);
          ("number_of_partition_entries", U32); ("partition_entry_size", U32);
          ("partition_entries_offset", U64); ("partition_entries_hash", SHA1_t);
          ("number_of_raw_data_entries", U32); ("raw_data_entries_offset", U64);
          ("raw_data_entries_size", U32);
          ("number_of_group_entries", U32); ("group_entries_offset", U64);
          ("group_entries_size", U32);
          ("compressor_data_size", U8); ("compressor_data", Arr U8 7)]%string.

Definition PartitionDataEntry_t : ctype :=
  Struct [("first_sector", U32); ("number_of_sectors", U32);
          ("group_index", U32); ("number_of_groups", U32)]%string.

Definition PartitionEntry_t : ctype :=
  Struct [("partition_key", WiiKey_t);
          ("data_entries", Arr PartitionDataEntry_t 2)]%string.

Definition RawDataEntry_t : ctype :=
  Struct [("data_offset", U64); ("data_size", U64);
          ("group_index", U32); ("number_of_groups", U32)]%string.

Definition GroupEntry_t : ctype :=
  Struct [("data_offset", U32); ("data_size", U32)]%string.

Definition HashExceptionEntry_t : ctype :=
  Struct [("offset", U16); ("hash", SHA1_t)]%string.

Definition PurgeSegment_t : ctype :=
  Struct [("offset", U32); ("size", U32)]%string.

(** ** In-memory records

    The packed structs of [WIABlob.h].  Integer fields hold the value the
    host finds after the record image was read into the struct. *)

Definition SHA1 : Type := list byte.
Definition WiiKey : Type := list byte.

Record WIAHeader1 : Type := {
  magic : Z;
  version : Z;
  version_compatible : Z;
  header_2_size : Z;
  header_2_hash : SHA1;
  iso_file_size : Z;
  wia_file_size : Z;
  header_1_hash : SHA1
}.

Record WIAHeader2 : Type := {
  disc_type : Z;
  compression_type : Z;
  compression_level : Z;
  chunk_size : Z;
  disc_header : list byte;
  number_of_partition_entries : Z;
  partition_entry_size : Z;
  partition_entries_offset : Z;
  partition_entries_hash : SHA1;
  number_of_raw_data_entries : Z;
  raw_data_entries_offset : Z;
  raw_data_entries_size : Z;
  number_of_group_entries : Z;
  group_entries_offset : Z;
  group_entries_size : Z;
  compressor_data_size : Z;
  compressor_data : list byte
}.

Module PartitionDataEntry.
Record t : Type := {
  first_sector : Z;
  number_of_sectors : Z;
  group_index : Z;
  number_of_groups : Z
}.
End PartitionDataEntry.

Record PartitionEntry : Type := {
  partition_key : WiiKey;
  data_entries : list PartitionDataEntry.t  (* std::array<PartitionDataEntry, 2> *)
}.

Module RawDataEntry.
Record t : Type := {
  data_offset : Z;
  data_size : Z;
  group_index : Z;
  number_of_groups : Z
}.
End RawDataEntry.

Module GroupEntry.
Record t : Type := {
  data_offset : Z;  (* >> 2 *)
  data_size : Z
}.
End GroupEntry.

Module CompressionType.
Inductive t : Type :=
| None
| Purge
| Bzip2
| LZMA
| LZMA2.

(** The enumerators' values ([enum class CompressionType : u32]). *)
Definition to_u32 (c : t) : Z :=
  match c with
  | None => 0
  | Purge => 1
  | Bzip2 => 2
  | LZMA => 3
  | LZMA2 => 4
  end.

(** The enumerator a u32 names, if any. *)
Definition of_u32 (v : Z) : option t :=
  if v =? 0 then Some None
  else if v =? 1 then Some Purge
  else if v =? 2 then Some Bzip2
  else if v =? 3 then Some LZMA
  else if v =? 4 then Some LZMA2
  else Datatypes.None.
End CompressionType.

Inductive BlobType : Type :=
| WIA.

Record WIAFileReader : Type := {
  m_valid : bool;
  m_compression_type : CompressionType.t;
  m_file : list byte;
  m_header_1 : WIAHeader1;
  m_header_2 : WIAHeader2;
  m_partition_entries : list PartitionEntry;
  m_raw_data_entries : list RawDataEntry.t;
  m_group_entries : list GroupEntry.t
}.

(** ** Constants *)

Definition WIA_MAGIC : Z := 0x01414957.  (* "WIA\x1" (byteswapped to little endian) *)

Definition WIA_VERSION : Z := 0x01000000.
Definition WIA_VERSION_WRITE_COMPATIBLE : Z := 0x01000000.
Definition WIA_VERSION_READ_COMPATIBLE : Z := 0x00080000.

(** ** Accessors (inline in the class body) *)

Definition GetBlobType (r : WIAFileReader) : BlobType := WIA.

Definition GetRawSize (r : WIAFileReader) : Z :=
  swap64 (wia_file_size (m_header_1 r)).

Definition GetDataSize (r : WIAFileReader) : Z :=
  swap64 (iso_file_size (m_header_1 r)).

Definition IsDataSizeAccurate (r : WIAFileReader) : bool := true.

Definition GetBlockSize (r : WIAFileReader) : Z :=
  swap32 (chunk_size (m_header_2 r)).

Definition HasFastRandomAccessInBlock (r : WIAFileReader) : bool := false.

(** ** Loading a record image into its struct

    The file's bytes are copied into the packed struct as they are, so on the
    little-endian host every integer field holds the [le_decode] of its
    bytes: [WIA_MAGIC] is kept "byteswapped to little endian" to be compared
    with the field as loaded, and the accessors above swap the field they
    return on every call. *)

Definition load_WIAHeader1 (image : list byte) : WIAHeader1 :=
  let u := field_uint WIAHeader1_t in
  let b := field_bytes WIAHeader1_t in
  {| magic := u "magic"%string image;
     version := u "version"%string image;
     version_compatible := u "version_compatible"%string image;
     header_2_size := u "header_2_size"%string image;
     header_2_hash := b "header_2_hash"%string image;
     iso_file_size := u "iso_file_size"%string image;
     wia_file_size := u "wia_file_size"%string image;
     header_1_hash := b "header_1_hash"%string image |}.

Definition load_WIAHeader2 (image : list byte) : WIAHeader2 :=
  let u := field_uint WIAHeader2_t in
  let b := field_bytes WIAHeader2_t in
  {| disc_type := u "disc_type"%string image;
     compression_type := u "compression_type"%string image;
     compression_level := u "compression_level"%string image;
     chunk_size := u "chunk_size"%string image;
     disc_header := b "disc_header"%string image;
     number_of_partition_entries := u "number_of_partition_entries"%string image;
     partition_entry_size := u "partition_entry_size"%string image;
     partition_entries_offset := u "partition_entries_offset"%string image;
     partition_entries_hash := b "partition_entries_hash"%string image;
     number_of_raw_data_entries := u "number_of_raw_data_entries"%string image;
     raw_data_entries_offset := u "raw_data_entries_offset"%string image;
     raw_data_entries_size := u "raw_data_entries_size"%string image;
     number_of_group_entries := u "number_of_group_entries"%string image;
     group_entries_offset := u "group_entries_offset"%string image;
     group_entries_size := u "group_entries_size"%string image;
     compressor_data_size := u "compressor_data_size"%string image;
     compressor_data := b "compressor_data"%string image |}.

Definition load_PartitionDataEntry (image : list byte) : PartitionDataEntry.t :=
  let u := field_uint PartitionDataEntry_t in
  {| PartitionDataEntry.first_sector := u "first_sector"%string image;
     PartitionDataEntry.number_of_sectors := u "number_of_sectors"%string image;
     PartitionDataEntry.group_index := u "group_index"%string image;
     PartitionDataEntry.number_of_groups := u "number_of_groups"%string image |}.

Definition load_PartitionEntry (image : list byte) : PartitionEntry :=
  {| partition_key := field_bytes PartitionEntry_t "partition_key"%string image;
     data_entries :=
       map load_PartitionDataEntry
           (chunks 2 (sizeof PartitionDataEntry_t)
                   (field_bytes PartitionEntry_t "data_entries"%string image)) |}.

Definition load_RawDataEntry (image : list byte) : RawDataEntry.t :=
  let u := field_uint RawDataEntry_t in
  {| RawDataEntry.data_offset := u "data_offset"%string image;
     RawDataEntry.data_size := u "data_size"%string image;
     RawDataEntry.group_index := u "group_index"%string image;
     RawDataEntry.number_of_groups := u "number_of_groups"%string image |}.

Definition load_GroupEntry (image : list byte) : GroupEntry.t :=
  let u := field_uint GroupEntry_t in
  {| GroupEntry.data_offset := u "data_offset"%string image;
     GroupEntry.data_size := u "data_size"%string image |}.

(** ** Opening a file

    Error kinds of the decoder (spec, section 7). *)

Inductive Error : Type :=
| UnsupportedFormat
| Corrupt
| OutOfRange
| IOError
| Unsupported.

Inductive result (A : Type) : Type :=
| Ok (a : A)
| Err (e : Error).
Arguments Ok {A} a.
Arguments Err {A} e.

Definition bind {A B} (c : result A) (k : A -> result B) : result B :=
  match c with
  | Ok a => k a
  | Err e => Err e
  end.

Notation "x <- c1 ;; c2" := (bind c1 (fun x => c2))
  (at level 61, c1 at next level, right associativity).
Notation "c1 ;; c2" := (bind c1 (fun _ => c2))
  (at level 61, right associativity).
Notation "' pat <- c1 ;; c2" := (bind c1 (fun x => match x with pat => c2 end))
  (at level 61, pat pattern, c1 at next level, right associativity).

(** [check c e] fails with [e] unless [c] holds. *)
Definition check (c : bool) (e : Error) : result unit :=
  if c then Ok tt else Err e.

(** A read of [len] bytes at [off]; an I/O error when the file is short. *)
Definition read_at (file : list byte) (off len : Z) : result (list byte) :=
  match slice file (Z.to_nat off) (Z.to_nat len) with
  | Some bs => Ok bs
  | None => Err IOError
  end.

(** What [header_1_hash] covers: the 0x48 bytes of Header1 with the hash
    field zeroed. *)
Definition hashed_header_1 (image : list byte) : list byte :=
  firstn (offsetof WIAHeader1_t "header_1_hash"%string) image
    ++ repeat x00 (sizeof SHA1_t).

Definition disc_type_known (v : Z) : bool := (v =? 1) || (v =? 2).

(** Modelled from the spec: the body of [WIAFileReader::Initialize]
    (WIABlob.cpp) is not among the sources, only its declaration is.  The
    steps and their order are those of the spec, section 4.1: read Header1;
    verify the magic (UnsupportedFormat); verify [header_1_hash] and
    [header_2_hash] (Corrupt); reject a [version_compatible] below the
    read-compat floor (UnsupportedFormat, section 7); read Header2.  A read
    that comes back short is an IOError.  Integer fields stay as loaded and
    are swapped where they are used, as the accessors do. *)
Definition ReadHeaders (file : list byte) : result (WIAHeader1 * WIAHeader2) :=
  image1 <- read_at file 0 (Z.of_nat (sizeof WIAHeader1_t)) ;;
  let h1 := load_WIAHeader1 image1 in
  check (magic h1 =? WIA_MAGIC) UnsupportedFormat ;;
  check (bytes_eqb (header_1_hash h1) (Sha1.digest (hashed_header_1 image1)))
             Corrupt ;;
  hashed2 <- read_at file (Z.of_nat (sizeof WIAHeader1_t))
                     (swap32 (header_2_size h1)) ;;
  check (bytes_eqb (header_2_hash h1) (Sha1.digest hashed2)) Corrupt ;;
  check (WIA_VERSION_READ_COMPATIBLE <=? swap32 (version_compatible h1))
             UnsupportedFormat ;;
  image2 <- read_at file (Z.of_nat (sizeof WIAHeader1_t))
                    (Z.of_nat (sizeof WIAHeader2_t)) ;;
  Ok (h1, load_WIAHeader2 image2).

(** Modelled from the spec: table loading is part of the absent
    [Initialize].  Section 3: the partition table is
    [number_of_partition_entries] records of [partition_entry_size] bytes at
    [partition_entries_offset], validated by [partition_entries_hash]; the
    raw-data table is count records of 0x18 bytes at
    [raw_data_entries_offset]; the group table is count records of 0x08 bytes
    at [group_entries_offset].  A partition record too short for a
    [PartitionEntry] is a malformed table (Corrupt). *)
Definition ReadPartitionEntries (file : list byte) (h2 : WIAHeader2)
  : result (list PartitionEntry) :=
  let count := swap32 (number_of_partition_entries h2) in
  let entry_size := swap32 (partition_entry_size h2) in
  image <- read_at file (swap64 (partition_entries_offset h2)) (count * entry_size) ;;
  check (bytes_eqb (partition_entries_hash h2) (Sha1.digest image)) Corrupt ;;
  check ((count =? 0) || (Z.of_nat (sizeof PartitionEntry_t) <=? entry_size))
             Corrupt ;;
  Ok (map load_PartitionEntry (chunks (Z.to_nat count) (Z.to_nat entry_size) image)).

Definition ReadRawDataEntries (file : list byte) (h2 : WIAHeader2)
  : result (list RawDataEntry.t) :=
  let count := swap32 (number_of_raw_data_entries h2) in
  let entry_size := Z.of_nat (sizeof RawDataEntry_t) in
  image <- read_at file (swap64 (raw_data_entries_offset h2)) (count * entry_size) ;;
  Ok (map load_RawDataEntry (chunks (Z.to_nat count) (Z.to_nat entry_size) image)).

Definition ReadGroupEntries (file : list byte) (h2 : WIAHeader2)
  : result (list GroupEntry.t) :=
  let count := swap32 (number_of_group_entries h2) in
  let entry_size := Z.of_nat (sizeof GroupEntry_t) in
  image <- read_at file (swap64 (group_entries_offset h2)) (count * entry_size) ;;
  Ok (map load_GroupEntry (chunks (Z.to_nat count) (Z.to_nat entry_size) image)).

(** Modelled from the spec: [WIAFileReader::Initialize] (declared in
    WIABlob.h, defined in the absent WIABlob.cpp), the spec's [open].  After
    the headers: an unknown compression type or disc type is an
    UnsupportedFormat (section 6.1); then the three tables are loaded. *)
Definition Initialize (file : list byte) : result WIAFileReader :=
  '(h1, h2) <- ReadHeaders file ;;
  ct <- match CompressionType.of_u32 (swap32 (compression_type h2)) with
        | Some c => Ok c
        | None => Err UnsupportedFormat
        end ;;
  check (disc_type_known (swap32 (disc_type h2))) UnsupportedFormat ;;
  partitions <- ReadPartitionEntries file h2 ;;
  raw_data <- ReadRawDataEntries file h2 ;;
  groups <- ReadGroupEntries file h2 ;;
  Ok {| m_valid := true;
        m_compression_type := ct;
        m_file := file;
        m_header_1 := h1;
        m_header_2 := h2;
        m_partition_entries := partitions;
        m_raw_data_entries := raw_data;
        m_group_entries := groups |}.

(** [WIAFileReader::Create]: the reader when it is valid, else no reader. *)
Definition Create (file : list byte) : option WIAFileReader :=
  match Initialize file with
  | Ok r => if m_valid r then Some r else None
  | Err _ => None
  end.

(** ** A small well-formed file

    GameCube disc type, no compression, one raw-data entry and one zero-filled
    group; the two header hashes are computed over the bytes written. *)

Definition sample_header_2 (compression : Z) : list byte :=
  be_encode 4 1 ++ be_encode 4 compression ++ be_encode 4 0
    ++ be_encode 4 0x200000
    ++ repeat x00 0x80
    ++ be_encode 4 0 ++ be_encode 4 0x30 ++ be_encode 8 0x124
    ++ Sha1.digest []
    ++ be_encode 4 1 ++ be_encode 8 0x124 ++ be_encode 4 0x18
    ++ be_encode 4 1 ++ be_encode 8 0x13C ++ be_encode 4 0x08
    ++ [x00] ++ repeat x00 7.

Definition sample_tables : list byte :=
  (be_encode 8 0x80 ++ be_encode 8 0x1FFF80 ++ be_encode 4 0 ++ be_encode 4 1)
    ++ (be_encode 4 0 ++ be_encode 4 0).

Definition sample_header_1 (first4 : list byte) (compat compression : Z)
  : list byte :=
  let body :=
    first4 ++ be_encode 4 0x01000000 ++ be_encode 4 compat
      ++ be_encode 4 0xDC ++ Sha1.digest (sample_header_2 compression)
      ++ be_encode 8 0x200000 ++ be_encode 8 0x144 in
  body ++ Sha1.digest (body ++ repeat x00 20).

Definition build_sample (first4 : list byte) (compat compression : Z)
  : list byte :=
  sample_header_1 first4 compat compression
    ++ sample_header_2 compression ++ sample_tables.

Definition wia_magic_bytes : list byte := [x57; x49; x41; x01].

Definition sample_wia : list byte :=
  Eval vm_compute in build_sample wia_magic_bytes 0x00080000 0.

(** The bytes of field [name] of the record of type [t] that starts at
    offset [base] of the file. *)
Definition on_disk (file : list byte) (base : nat) (t : ctype) (name : string)
  : list byte :=
  field_bytes t name (skipn base file).

(** The reader [Initialize] builds from [sample_wia]. *)
Definition sample_reader : WIAFileReader :=
  {| m_valid := true;
     m_compression_type := CompressionType.None;
     m_file := sample_wia;
     m_header_1 := load_WIAHeader1 (firstn 0x48 sample_wia);
     m_header_2 := load_WIAHeader2 (firstn 0xDC (skipn 0x48 sample_wia));
     m_partition_entries := [];
     m_raw_data_entries := [load_RawDataEntry (firstn 0x18 (skipn 0x124 sample_wia))];
     m_group_entries := [load_GroupEntry (firstn 0x08 (skipn 0x13C sample_wia))] |}.

(** Variants of the sample: a first word that is not the magic, a
    [version_compatible] one below the floor, a compression type past the
    enumeration. *)
Definition sample_bad_magic : list byte :=
  Eval vm_compute in build_sample [x58; x49; x41; x01] 0x00080000 0.

Definition sample_old_compat : list byte :=
  Eval vm_compute in build_sample wia_magic_bytes 0x0007FFFF 0.

Definition sample_bad_compression : list byte :=
  Eval vm_compute in build_sample wia_magic_bytes 0x00080000 5.





(** * Vanguard IPC client (DolphinQt/NarrysMod/VanguardClient.cpp)

    The managed client that serves memory peeks and pokes over Netcore.  It
    is C++/CLI: [int] and [long] are 32-bit, [long long] is 64-bit, integer
    arithmetic wraps, and the [Convert] conversions throw on a value that
    does not fit. *)

Definition wrap_i32 (z : Z) : Z := (z + 2 ^ 31) mod 2 ^ 32 - 2 ^ 31.
Definition wrap_i64 (z : Z) : Z := (z + 2 ^ 63) mod 2 ^ 64 - 2 ^ 63.

Definition INT_MIN : Z := -2147483648.
Definition INT_MAX : Z := 2147483647.

Inductive Exception : Type :=
| OverflowException
| IndexOutOfRangeException
| ArgumentOutOfRangeException.

Inductive outcome (A : Type) : Type :=
| Done (a : A)
| Throw (e : Exception).
Arguments Done {A} a.
Arguments Throw {A} e.

Definition obind {A B} (c : outcome A) (k : A -> outcome B) : outcome B :=
  match c with
  | Done a => k a
  | Throw e => Throw e
  end.

(** [Convert::ToUInt32(Int32)] and [Convert::ToUInt32(Int64)]. *)
Definition ToUInt32_Int32 (v : Z) : outcome Z :=
  if v <? 0 then Throw OverflowException else Done v.

Definition ToUInt32_Int64 (v : Z) : outcome Z :=
  if (v <? 0) || (u32_max <? v) then Throw OverflowException else Done v.

Module VanguardClientV1.

Definition SRAM_SIZE : Z := 25165824.
Definition ARAM_SIZE : Z := 16777216.
Definition EXRAM_SIZE : Z := 67108864.

Module MemoryDomain.
Record t : Type := {
  size : Z;
  offset : Z;
  name : string
}.

(** [gcnew MemoryDomain]: the field initialisers. *)
Definition fresh : t := {| size := 0; offset := 0; name := "NULL" |}.
End MemoryDomain.

(** [GetDomain] writes into the domain it is given and returns it; [bWii] is
    [SConfig::GetInstance().bWii]. *)
Definition GetDomain (bWii : bool) (address range : Z) (domain : MemoryDomain.t)
  : MemoryDomain.t :=
  if wrap_i32 (address + range) <=? SRAM_SIZE then
    {| MemoryDomain.name := "SRAM";
       MemoryDomain.size := SRAM_SIZE;
       MemoryDomain.offset := MemoryDomain.offset domain |}
  else if bWii then
    {| MemoryDomain.name := "EXRAM";
       MemoryDomain.offset := SRAM_SIZE;
       MemoryDomain.size := EXRAM_SIZE |}
  else
    {| MemoryDomain.name := "ARAM";
       MemoryDomain.size := ARAM_SIZE;
       MemoryDomain.offset := MemoryDomain.offset domain |}.

(** The emulator's writes, in the order they are made:
    [Memory::Write_U8(value, address)] and [DSP::WriteARAM(value, address)]. *)
Inductive MemEvent : Type :=
| Write_U8 (value : byte) (address : Z)
| WriteARAM (value : byte) (address : Z).

Section Memory.
(** The emulator's reads, [Memory::Read_U8] and [DSP::ReadARAM]. *)
Variables (Read_U8 ReadARAM : Z -> byte).

(** [PeekByte(long address, MemoryDomain^ domain)]; the final [return -1]
    is the byte 0xFF. *)
Definition PeekByte (address : Z) (domain : MemoryDomain.t) : outcome byte :=
  if (MemoryDomain.name domain =? "SRAM")%string
     && (wrap_i32 (address - MemoryDomain.offset domain) <? MemoryDomain.size domain)
  then obind (ToUInt32_Int32 address) (fun a => Done (Read_U8 a))
  else if (MemoryDomain.name domain =? "EXRAM")%string
     && (wrap_i32 (address - MemoryDomain.offset domain) <? MemoryDomain.size domain)
  then obind (ToUInt32_Int32 address) (fun a => Done (Read_U8 a))
  else if (MemoryDomain.name domain =? "ARAM")%string
     && (wrap_i32 (wrap_i32 (address - MemoryDomain.size domain)
                   - MemoryDomain.offset domain) <? MemoryDomain.size domain)
  then obind (ToUInt32_Int32 (wrap_i32 (address - SRAM_SIZE)))
             (fun a => Done (ReadARAM a))
  else Done xff.

Fixpoint PeekBytes_loop (n : nat) (i : Z) (address : Z) (domain : MemoryDomain.t)
  : outcome (list byte) :=
  match n with
  | O => Done []
  | S n' =>
      obind (PeekByte (wrap_i32 (address + i)) domain) (fun b =>
      obind (PeekBytes_loop n' (i + 1) address domain) (fun rest =>
      Done (b :: rest)))
  end.

(** [PeekBytes(long address, int range, MemoryDomain^ domain)]: an array of
    [range] bytes ([gcnew array<Byte>(range)] throws on a negative length),
    filled from [address + i]. *)
Definition PeekBytes (address range : Z) (domain : MemoryDomain.t)
  : outcome (list byte) :=
  if range <? 0 then Throw OverflowException
  else PeekBytes_loop (Z.to_nat range) 0 address domain.
End Memory.

(** [PokeByte], on the unboxed argument array {address, value, domain}; the
    address is a [long long] here.  The writes made, then how the call
    ended. *)
Definition PokeByte (address : Z) (value : byte) (domain : MemoryDomain.t)
  : list MemEvent * outcome unit :=
  if (MemoryDomain.name domain =? "SRAM")%string
     && (wrap_i64 (address - MemoryDomain.offset domain) <? MemoryDomain.size domain)
  then match ToUInt32_Int64 address with
       | Done a => ([Write_U8 value a], Done tt)
       | Throw e => ([], Throw e)
       end
  else if (MemoryDomain.name domain =? "EXRAM")%string
     && (wrap_i64 (address - MemoryDomain.offset domain) <? MemoryDomain.size domain)
  then match ToUInt32_Int64 address with
       | Done a => ([Write_U8 value a], Done tt)
       | Throw e => ([], Throw e)
       end
  else if (MemoryDomain.name domain =? "ARAM")%string
     && (wrap_i64 (wrap_i64 (address - MemoryDomain.size domain)
                   - MemoryDomain.offset domain) <? MemoryDomain.size domain)
  then match ToUInt32_Int64 (wrap_i64 (address - SRAM_SIZE)) with
       | Done a => ([WriteARAM value a], Done tt)
       | Throw e => ([], Throw e)
       end
  else ([], Done tt).

Fixpoint PokeBytes_loop (n : nat) (i : Z) (address : Z) (values : list byte)
         (domain : MemoryDomain.t) : list MemEvent * outcome unit :=
  match n with
  | O => ([], Done tt)
  | S n' =>
      match nth_error values (Z.to_nat i) with
      | None => ([], Throw IndexOutOfRangeException)
      | Some v =>
          match PokeByte address v domain with
          | (ev, Done _) =>
              let '(ev', st) := PokeBytes_loop n' (i + 1) address values domain in
              (ev ++ ev', st)
          | (ev, Throw e) => (ev, Throw e)
          end
      end
  end.

(** [PokeBytes], on the unboxed argument array {address, values, range,
    domain}: each round passes {address, values[i], domain} to [PokeByte]. *)
Definition PokeBytes (address : Z) (values : list byte) (range : Z)
           (domain : MemoryDomain.t) : list MemEvent * outcome unit :=
  PokeBytes_loop (Z.to_nat range) 0 address values domain.

Inductive COMMANDS : Type :=
| LOADSTATE
| SAVESTATE
| POKEBYTE
| PEEKBYTE
| POKEBYTES
| PEEKBYTES
| POKEADDRESSES
| PEEKADDRESSES
| UNKNOWN.

Definition CheckCommand (inString : string) : COMMANDS :=
  if (inString =? "LOADSTATE")%string then LOADSTATE
  else if (inString =? "SAVESTATE")%string then SAVESTATE
  else if (inString =? "POKEBYTE")%string then POKEBYTE
  else if (inString =? "PEEKBYTE")%string then PEEKBYTE
  else if (inString =? "POKEBYTES")%string then POKEBYTES
  else if (inString =? "PEEKBYTES")%string then PEEKBYTES
  else if (inString =? "POKEADDRESSES")%string then POKEADDRESSES
  else if (inString =? "PEEKADDRESSES")%string then PEEKADDRESSES
  else UNKNOWN.

End VanguardClientV1.

(** * Vanguard client, later revision (the second VanguardClient.cpp) *)

Module VanguardClient.

Inductive COMMANDS : Type :=
| SAVESAVESTATE
| LOADSAVESTATE
| REMOTE_LOADROM
| REMOTE_CLOSEGAME
| REMOTE_DOMAIN_GETDOMAINS
| REMOTE_KEY_SETSYNCSETTINGS
| REMOTE_KEY_SETSYSTEMCORE
| REMOTE_EVENT_EMU_MAINFORM_CLOSE
| REMOTE_EVENT_EMUSTARTED
| REMOTE_ISNORMALADVANCE
| REMOTE_EVENT_CLOSEEMULATOR
| REMOTE_ALLSPECSSENT
| UNKNOWN.

Definition CheckCommand (inString : string) : COMMANDS :=
  if (inString =? "LOADSAVESTATE")%string then LOADSAVESTATE
  else if (inString =? "SAVESAVESTATE")%string then SAVESAVESTATE
  else if (inString =? "REMOTE_LOADROM")%string then REMOTE_LOADROM
  else if (inString =? "REMOTE_CLOSEGAME")%string then REMOTE_CLOSEGAME
  else if (inString =? "REMOTE_ALLSPECSSENT")%string then REMOTE_ALLSPECSSENT
  else if (inString =? "REMOTE_DOMAIN_GETDOMAINS")%string then REMOTE_DOMAIN_GETDOMAINS
  else if (inString =? "REMOTE_KEY_SETSYSTEMCORE")%string then REMOTE_KEY_SETSYSTEMCORE
  else if (inString =? "REMOTE_EVENT_EMU_MAINFORM_CLOSE")%string
       then REMOTE_EVENT_EMU_MAINFORM_CLOSE
  else if (inString =? "REMOTE_EVENT_EMUSTARTED")%string then REMOTE_EVENT_EMUSTARTED
  else if (inString =? "REMOTE_ISNORMALADVANCE")%string then REMOTE_ISNORMALADVANCE
  else if (inString =? "REMOTE_EVENT_CLOSEEMULATOR")%string
       then REMOTE_EVENT_CLOSEEMULATOR
  else if (inString =? "REMOTE_ALLSPECSSENT")%string then REMOTE_ALLSPECSSENT
  else UNKNOWN.

(** What [STEP_CORRUPT] reads on a step: [CorruptCore::AutoCorrupt], the
    local [errorDelay] and whether [GenerateBlastLayer] gave a layer. *)
Record CorruptCore : Type := {
  AutoCorrupt : bool;
  ErrorDelay : Z;
  has_blast_layer : bool
}.

(** The calls [STEP_CORRUPT] makes, in order. *)
Inductive StepEvent : Type :=
| StepActions_Execute
| GenerateBlastLayer
| BlastLayer_Apply.

(** [STEP_CORRUPT], on the static [CPU_STEP_Count]: the new count and the
    calls made. *)
Definition STEP_CORRUPT (core : CorruptCore) (CPU_STEP_Count : Z)
  : Z * list StepEvent :=
  let count := wrap_i32 (CPU_STEP_Count + 1) in
  if AutoCorrupt core && (ErrorDelay core <=? count) then
    (0, [StepActions_Execute; GenerateBlastLayer]
          ++ (if has_blast_layer core then [BlastLayer_Apply] else []))
  else (count, [StepActions_Execute]).

(** [CORE_STEP] is a call of [STEP_CORRUPT]; a run of them, one for each
    element of [cores], what [CorruptCore] holds when that step reads it. *)
Fixpoint CORE_STEPs (cores : list CorruptCore) (CPU_STEP_Count : Z)
  : Z * list StepEvent :=
  match cores with
  | [] => (CPU_STEP_Count, [])
  | core :: rest =>
      let '(count, ev) := STEP_CORRUPT core CPU_STEP_Count in
      let '(count', ev') := CORE_STEPs rest count in
      (count', ev ++ ev')
  end.

(** [LOAD_GAME_START] sets the count back to 0. *)
Definition LOAD_GAME_START (CPU_STEP_Count : Z) : Z := 0.

Definition blasts (ev : list StepEvent) : nat :=
  length (filter (fun e => match e with GenerateBlastLayer => true | _ => false end) ev).

(** [String::LastIndexOf(Char)]: the index of the last occurrence, -1 when
    there is none. *)
Fixpoint LastIndexOf (c : Ascii.ascii) (s : string) : Z :=
  match s with
  | EmptyString => -1
  | String a rest =>
      let r := LastIndexOf c rest in
      if 0 <=? r then r + 1
      else if Ascii.eqb a c then 0 else -1
  end.

Fixpoint drop (n : nat) (s : string) : string :=
  match n, s with
  | O, _ => s
  | S n', String _ rest => drop n' rest
  | S _, EmptyString => EmptyString
  end.

(** [String::Substring(Int32)]: the string from [startIndex] on. *)
Definition Substring (startIndex : Z) (s : string) : outcome string :=
  if (startIndex <? 0) || (Z.of_nat (String.length s) <? startIndex)
  then Throw ArgumentOutOfRangeException
  else Done (drop (Z.to_nat startIndex) s).

(** The SAVESAVESTATE case of [OnMessageReceived], from the game name made
    safe ([MakeSafeFilename], not among the sources) to the state path:
    [prefix] is cut after its last backslash, [quickSlotName] is the key
    followed by ".timejump". *)
Definition backslash : Ascii.ascii := Ascii.ascii_of_nat 92.

Definition state_prefix (safe_name : string) : outcome string :=
  Substring (LastIndexOf backslash safe_name + 1) safe_name.

Definition state_path (workingDir : string) (DirectorySeparatorChar : Ascii.ascii)
           (safe_name Key : string) : outcome string :=
  let quickSlotName := (Key ++ ".timejump")%string in
  obind (state_prefix safe_name) (fun prefix =>
  let sep := String DirectorySeparatorChar EmptyString in
  Done (workingDir ++ sep ++ "SESSION" ++ sep ++ prefix ++ "."
          ++ quickSlotName ++ ".State")%string).

(** Settings with auto-corrupt on and a delay of [d], and with it off. *)
Definition core_on (d : Z) : CorruptCore :=
  {| AutoCorrupt := true; ErrorDelay := d; has_blast_layer := true |}.

Definition core_off : CorruptCore :=
  {| AutoCorrupt := false; ErrorDelay := 1; has_blast_layer := true |}.

End VanguardClient.

(** Auto-corrupt is on with an error delay of [d]. *)
Definition auto_every (d : Z) (core : VanguardClient.CorruptCore) : Prop :=
  VanguardClient.AutoCorrupt core = true /\ VanguardClient.ErrorDelay core = d.

(** * Properties *)

(** ** SHA-1 test vectors (FIPS 180 examples) *)

Example sha1_abc :
  be_decode (Sha1.digest [x61; x62; x63])
  = 0xa9993e364706816aba3e25717850c26c9cd0d89d.
Proof. vm_compute. reflexivity. Qed.

Example sha1_empty :
  be_decode (Sha1.digest []) = 0xda39a3ee5e6b4b0d3255bfef95601890afd80709.
Proof. vm_compute. reflexivity. Qed.

Example sha1_two_blocks :
  be_decode (Sha1.digest (list_byte_of_string
     "abcdbcdecdefdefgefghfghighijhijkijkljklmklmnlmnomnopnopq"))
  = 0x84983e441c3bd26ebaae4aa1f95129e5e54670f1.
Proof. vm_compute. reflexivity. Qed.

(** ** Byte strings and byte swaps *)

Lemma byte_to_Z_range (b : byte) : 0 <= byte_to_Z b < 256.
Proof.
  unfold byte_to_Z. pose proof (Byte.to_N_bounded b) as H. lia.
Qed.

Lemma be_decode_snoc (bs : list byte) (b : byte) :
  be_decode (bs ++ [b]) = be_decode bs * 256 + byte_to_Z b.
Proof.
  unfold be_decode. rewrite fold_left_app. reflexivity.
Qed.

Lemma be_decode_rev (bs : list byte) : be_decode (rev bs) = le_decode bs.
Proof.
  induction bs as [|b bs IH]; [reflexivity|].
  cbn [rev le_decode]. rewrite be_decode_snoc, IH. lia.
Qed.

Lemma le_decode_range (bs : list byte) :
  0 <= le_decode bs < 256 ^ Z.of_nat (length bs).
Proof.
  induction bs as [|b bs IH]; [simpl; lia|].
  cbn [le_decode length]. rewrite Nat2Z.inj_succ, Z.pow_succ_r by lia.
  pose proof (byte_to_Z_range b). lia.
Qed.

Lemma be_decode_range (bs : list byte) :
  0 <= be_decode bs < 256 ^ Z.of_nat (length bs).
Proof.
  rewrite <- (rev_involutive bs) at 1 2. rewrite be_decode_rev.
  rewrite <- (length_rev bs). apply le_decode_range.
Qed.

(** Bits that do not overlap add up. *)
Lemma lor_shiftl_low (hi lo n : Z) :
  0 <= n -> 0 <= lo < 2 ^ n -> Z.lor (Z.shiftl hi n) lo = hi * 2 ^ n + lo.
Proof.
  intros Hn Hlo.
  assert (Hdisj : Z.land (Z.shiftl hi n) lo = 0).
  { apply Z.bits_inj'. intros k Hk.
    rewrite Z.land_spec, Z.bits_0.
    destruct (Z.lt_ge_cases k n) as [Hlt|Hge].
    - rewrite Z.shiftl_spec_low by assumption. reflexivity.
    - destruct (Z.eq_dec lo 0) as [->|Hnz].
      + rewrite Z.bits_0. apply andb_false_r.
      + rewrite (Z.bits_above_log2 lo k); [apply andb_false_r | lia |].
        apply Z.log2_lt_pow2; [lia|].
        apply Z.lt_le_trans with (2 ^ n); [lia|].
        apply Z.pow_le_mono_r; lia. }
  rewrite <- Z.lxor_lor by assumption.
  rewrite <- Z.add_nocarry_lxor by assumption.
  rewrite Z.shiftl_mul_pow2 by assumption. reflexivity.
Qed.

Lemma land_u16_max (x : Z) : Z.land x u16_max = x mod 2 ^ 16.
Proof. change u16_max with (Z.ones 16). apply Z.land_ones. lia. Qed.

Lemma land_u32_max (x : Z) : Z.land x u32_max = x mod 2 ^ 32.
Proof. change u32_max with (Z.ones 32). apply Z.land_ones. lia. Qed.

Lemma land_u64_max (x : Z) : Z.land x u64_max = x mod 2 ^ 64.
Proof. change u64_max with (Z.ones 64). apply Z.land_ones. lia. Qed.

Lemma swap16_bytes (a b : Z) :
  0 <= a < 256 -> 0 <= b < 256 -> swap16 (a + 256 * b) = b + 256 * a.
Proof.
  intros Ha Hb. unfold swap16.
  rewrite Z.lor_comm, land_u16_max.
  rewrite Z.shiftr_div_pow2 by lia.
  change (2 ^ 8) with 256. change (2 ^ 16) with 65536.
  replace ((a + 256 * b) / 256) with b
    by (apply Z.div_unique_pos with a; lia).
  rewrite lor_shiftl_low by (change (2 ^ 8) with 256; lia).
  change (2 ^ 8) with 256.
  replace ((a + 256 * b) * 256 + b) with ((b + 256 * a) + b * 65536) by lia.
  rewrite Z.mod_add by lia. apply Z.mod_small. lia.
Qed.

Lemma swap16_range (x : Z) : 0 <= swap16 x < 65536.
Proof.
  unfold swap16. rewrite land_u16_max. change (2 ^ 16) with 65536.
  apply Z.mod_pos_bound. lia.
Qed.

Lemma swap32_halves (lo hi : Z) :
  0 <= lo < 65536 -> 0 <= hi < 65536 ->
  swap32 (lo + 65536 * hi) = swap16 hi + 65536 * swap16 lo.
Proof.
  intros Hlo Hhi. unfold swap32.
  rewrite !land_u16_max, land_u32_max. rewrite Z.shiftr_div_pow2 by lia.
  change (2 ^ 16) with 65536.
  replace ((lo + 65536 * hi) / 65536) with hi
    by (apply Z.div_unique_pos with lo; lia).
  replace ((lo + 65536 * hi) mod 65536) with lo
    by (apply Z.mod_unique_pos with hi; lia).
  pose proof (swap16_range hi). pose proof (swap16_range lo).
  rewrite lor_shiftl_low by (change (2 ^ 16) with 65536; lia).
  change (2 ^ 16) with 65536.
  rewrite Z.mod_small by lia. lia.
Qed.

Lemma swap32_range (x : Z) : 0 <= swap32 x <= u32_max.
Proof.
  unfold swap32. rewrite land_u32_max.
  pose proof (Z.mod_pos_bound (Z.lor (Z.shiftl (swap16 (Z.land x u16_max)) 16)
                                     (swap16 (Z.shiftr x 16))) (2 ^ 32)).
  unfold u32_max. lia.
Qed.

Lemma swap64_halves (lo hi : Z) :
  0 <= lo < 2 ^ 32 -> 0 <= hi < 2 ^ 32 ->
  swap64 (lo + 2 ^ 32 * hi) = swap32 hi + 2 ^ 32 * swap32 lo.
Proof.
  intros Hlo Hhi. unfold swap64.
  rewrite !land_u32_max, land_u64_max. rewrite Z.shiftr_div_pow2 by lia.
  replace ((lo + 2 ^ 32 * hi) / 2 ^ 32) with hi
    by (apply Z.div_unique_pos with lo; lia).
  replace ((lo + 2 ^ 32 * hi) mod 2 ^ 32) with lo
    by (apply Z.mod_unique_pos with hi; lia).
  pose proof (swap32_range hi). pose proof (swap32_range lo).
  unfold u32_max in *.
  rewrite lor_shiftl_low by lia.
  rewrite Z.mod_small by lia. lia.
Qed.

Lemma swap64_range (x : Z) : 0 <= swap64 x <= u64_max.
Proof.
  unfold swap64. rewrite land_u64_max.
  pose proof (Z.mod_pos_bound (Z.lor (Z.shiftl (swap32 (Z.land x u32_max)) 32)
                                     (swap32 (Z.shiftr x 32))) (2 ^ 64)).
  unfold u64_max. lia.
Qed.

(** Swapping what a little-endian load found gives the big-endian value. *)
Lemma swap32_le_decode (bs : list byte) :
  length bs = 4%nat -> swap32 (le_decode bs) = be_decode bs.
Proof.
  intros Hlen.
  destruct bs as [|b0 [|b1 [|b2 [|b3 [|? ?]]]]]; try discriminate.
  pose proof (byte_to_Z_range b0). pose proof (byte_to_Z_range b1).
  pose proof (byte_to_Z_range b2). pose proof (byte_to_Z_range b3).
  cbn [le_decode be_decode fold_left].
  replace (byte_to_Z b0 + 256 * (byte_to_Z b1 + 256 * (byte_to_Z b2
             + 256 * (byte_to_Z b3 + 256 * 0))))
    with ((byte_to_Z b0 + 256 * byte_to_Z b1)
          + 65536 * (byte_to_Z b2 + 256 * byte_to_Z b3)) by lia.
  rewrite swap32_halves by lia.
  rewrite !swap16_bytes by lia. lia.
Qed.

Lemma swap64_le_decode (bs : list byte) :
  length bs = 8%nat -> swap64 (le_decode bs) = be_decode bs.
Proof.
  intros Hlen.
  destruct bs as [|b0 [|b1 [|b2 [|b3 [|b4 [|b5 [|b6 [|b7 [|? ?]]]]]]]]];
    try discriminate.
  pose proof (swap32_le_decode [b0; b1; b2; b3] eq_refl) as Hlo.
  pose proof (swap32_le_decode [b4; b5; b6; b7] eq_refl) as Hhi.
  pose proof (le_decode_range [b0; b1; b2; b3]) as Rlo.
  pose proof (le_decode_range [b4; b5; b6; b7]) as Rhi.
  change (256 ^ Z.of_nat (length [b0; b1; b2; b3])) with (2 ^ 32) in Rlo.
  change (256 ^ Z.of_nat (length [b4; b5; b6; b7])) with (2 ^ 32) in Rhi.
  replace (le_decode [b0; b1; b2; b3; b4; b5; b6; b7])
    with (le_decode [b0; b1; b2; b3] + 2 ^ 32 * le_decode [b4; b5; b6; b7])
    by (cbn [le_decode]; lia).
  rewrite swap64_halves by assumption.
  rewrite Hlo, Hhi. cbn [be_decode fold_left]. lia.
Qed.

Lemma bytes_eqb_eq (a b : list byte) : bytes_eqb a b = true -> a = b.
Proof.
  revert b. induction a as [|x a IH]; intros [|y b] H; try discriminate.
  - reflexivity.
  - cbn [bytes_eqb] in H. apply andb_true_iff in H. destruct H as [Hxy Hab].
    apply Byte.byte_dec_bl in Hxy. apply IH in Hab. congruence.
Qed.

Lemma byte_to_Z_to_byte (z : Z) : byte_to_Z (Z_to_byte z) = z mod 256.
Proof.
  unfold byte_to_Z, Z_to_byte.
  pose proof (Z.mod_pos_bound z 256 ltac:(lia)) as Hr.
  destruct (Byte.of_N (Z.to_N (z mod 256))) as [b|] eqn:Hb.
  - apply Byte.to_of_N in Hb. rewrite Hb. lia.
  - apply Byte.of_N_None_iff in Hb. lia.
Qed.

Lemma length_le_encode (n : nat) (z : Z) : length (le_encode n z) = n.
Proof.
  revert z. induction n as [|n IH]; intros z; cbn [le_encode length];
    [reflexivity | rewrite IH; reflexivity].
Qed.

Lemma le_decode_le_encode (n : nat) (z : Z) :
  0 <= z < 256 ^ Z.of_nat n -> le_decode (le_encode n z) = z.
Proof.
  revert z. induction n as [|n IH]; intros z Hz.
  - cbn in *. lia.
  - cbn [le_encode le_decode]. rewrite byte_to_Z_to_byte.
    rewrite Nat2Z.inj_succ, Z.pow_succ_r in Hz by lia.
    rewrite IH.
    + pose proof (Z.div_mod z 256 ltac:(lia)). lia.
    + split; [apply Z.div_pos; lia | apply Z.div_lt_upper_bound; lia].
Qed.

(** On a 64-bit value [swap64] reverses the eight bytes of its memory
    image; [swap32] the four of a 32-bit value. *)
Lemma swap64_memory_image (v : Z) :
  0 <= v <= u64_max -> swap64 v = be_decode (le_encode 8 v).
Proof.
  intros Hv. rewrite <- (le_decode_le_encode 8 v) at 1
    by (change (256 ^ Z.of_nat 8) with (u64_max + 1); lia).
  apply swap64_le_decode, length_le_encode.
Qed.

Lemma swap32_memory_image (v : Z) :
  0 <= v <= u32_max -> swap32 v = be_decode (le_encode 4 v).
Proof.
  intros Hv. rewrite <- (le_decode_le_encode 4 v) at 1
    by (change (256 ^ Z.of_nat 4) with (u32_max + 1); lia).
  apply swap32_le_decode, length_le_encode.
Qed.

(** ** Reads *)

Lemma field_in_image (l : list byte) (off n size : nat) :
  (off + n <= size)%nat ->
  firstn n (skipn off (firstn size l)) = firstn n (skipn off l).
Proof.
  intros H. rewrite skipn_firstn_comm, firstn_firstn. f_equal. lia.
Qed.

Lemma length_field (l : list byte) (off n : nat) :
  (off + n <= length l)%nat -> length (firstn n (skipn off l)) = n.
Proof.
  intros H. rewrite length_firstn, length_skipn. lia.
Qed.

Lemma read_at_ok (file : list byte) (off len : Z) (bs : list byte) :
  read_at file off len = Ok bs ->
  bs = firstn (Z.to_nat len) (skipn (Z.to_nat off) file)
  /\ (Z.to_nat off + Z.to_nat len <= length file)%nat.
Proof.
  unfold read_at, slice.
  destruct (Nat.leb_spec (Z.to_nat off + Z.to_nat len) (length file)) as [Hle|Hgt];
    intros H; inversion H; auto.
Qed.

Lemma bind_ok {A B} (c : result A) (k : A -> result B) (b : B) :
  bind c k = Ok b -> exists a, c = Ok a /\ k a = Ok b.
Proof.
  destruct c as [a|e]; cbn [bind]; intros H; [eauto | discriminate].
Qed.

Lemma check_ok (c : bool) (e : Error) (u : unit) : check c e = Ok u -> c = true.
Proof. destruct c; cbn [check]; intros H; [reflexivity | discriminate]. Qed.

Tactic Notation "inv_bind" hyp(H) "as" ident(a) ident(Ha) :=
  apply bind_ok in H; destruct H as (a & Ha & H).

(** What a successful [ReadHeaders] established. *)
Lemma ReadHeaders_ok (file : list byte) (h1 : WIAHeader1) (h2 : WIAHeader2) :
  ReadHeaders file = Ok (h1, h2) ->
  (0x48 + 0xDC <= length file)%nat
  /\ h1 = load_WIAHeader1 (firstn 0x48 file)
  /\ h2 = load_WIAHeader2 (firstn 0xDC (skipn 0x48 file))
  /\ magic h1 = WIA_MAGIC
  /\ header_1_hash h1 = Sha1.digest (hashed_header_1 (firstn 0x48 file))
  /\ header_2_hash h1
     = Sha1.digest (firstn (Z.to_nat (swap32 (header_2_size h1))) (skipn 0x48 file))
  /\ WIA_VERSION_READ_COMPATIBLE <= swap32 (version_compatible h1).
Proof.
  unfold ReadHeaders. intros H.
  inv_bind H as image1 H1. apply read_at_ok in H1. destruct H1 as [-> _].
  change (Z.to_nat (Z.of_nat (sizeof WIAHeader1_t))) with 0x48%nat in *.
  change (skipn (Z.to_nat 0) file) with file in *.
  inv_bind H as u1 Hmagic. apply check_ok, Z.eqb_eq in Hmagic.
  inv_bind H as u2 Hhash1. apply check_ok, bytes_eqb_eq in Hhash1.
  inv_bind H as hashed2 H2. apply read_at_ok in H2. destruct H2 as [-> _].
  inv_bind H as u3 Hhash2. apply check_ok, bytes_eqb_eq in Hhash2.
  inv_bind H as u4 Hcompat. apply check_ok, Z.leb_le in Hcompat.
  inv_bind H as image2 H3. apply read_at_ok in H3. destruct H3 as [-> Hlen].
  change (Z.to_nat (Z.of_nat (sizeof WIAHeader2_t))) with 0xDC%nat in *.
  inversion H; subst h1 h2. clear H.
  repeat split; assumption.
Qed.

(** What a successful [Initialize] established. *)
Lemma Initialize_ok (file : list byte) (r : WIAFileReader) :
  Initialize file = Ok r ->
  ReadHeaders file = Ok (m_header_1 r, m_header_2 r)
  /\ CompressionType.of_u32 (swap32 (compression_type (m_header_2 r)))
     = Some (m_compression_type r)
  /\ disc_type_known (swap32 (disc_type (m_header_2 r))) = true
  /\ m_valid r = true
  /\ m_file r = file.
Proof.
  unfold Initialize. intros H.
  inv_bind H as hs Hhs. destruct hs as [h1 h2].
  inv_bind H as ct Hct.
  destruct (CompressionType.of_u32 (swap32 (compression_type h2))) as [c|] eqn:Hc;
    [|discriminate].
  inversion Hct; subst ct. clear Hct.
  inv_bind H as u Hdisc. apply check_ok in Hdisc.
  inv_bind H as partitions Hp. inv_bind H as raw_data Hr. inv_bind H as groups Hg.
  inversion H; subst r; cbn. auto.
Qed.

Lemma Initialize_headers (file : list byte) (r : WIAFileReader) :
  Initialize file = Ok r ->
  (0x48 + 0xDC <= length file)%nat
  /\ m_header_1 r = load_WIAHeader1 (firstn 0x48 file)
  /\ m_header_2 r = load_WIAHeader2 (firstn 0xDC (skipn 0x48 file)).
Proof.
  intros H. apply Initialize_ok in H. destruct H as (H & _).
  apply ReadHeaders_ok in H. tauto.
Qed.

Lemma read_at_long_enough (file : list byte) (off len : Z) :
  (Z.to_nat off + Z.to_nat len <= length file)%nat ->
  read_at file off len
  = Ok (firstn (Z.to_nat len) (skipn (Z.to_nat off) file)).
Proof.
  intros H. unfold read_at, slice.
  destruct (Nat.leb_spec (Z.to_nat off + Z.to_nat len) (length file)); [reflexivity | lia].
Qed.

(** A stored 32-bit field, swapped, is the big-endian value of its bytes in
    the file; likewise on 64 bits. *)
Lemma swap32_field (t : ctype) (name : string) (base size : nat) (file : list byte) :
  sizeof_field (fields_of t) name = 4%nat ->
  (offsetof t name + 4 <= size)%nat ->
  (base + size <= length file)%nat ->
  swap32 (field_uint t name (firstn size (skipn base file)))
  = be_decode (on_disk file base t name).
Proof.
  intros Hsz Hoff Hlen. unfold field_uint, on_disk, field_bytes. rewrite Hsz.
  rewrite field_in_image by assumption.
  apply swap32_le_decode, length_field. rewrite length_skipn. lia.
Qed.

Lemma swap64_field (t : ctype) (name : string) (base size : nat) (file : list byte) :
  sizeof_field (fields_of t) name = 8%nat ->
  (offsetof t name + 8 <= size)%nat ->
  (base + size <= length file)%nat ->
  swap64 (field_uint t name (firstn size (skipn base file)))
  = be_decode (on_disk file base t name).
Proof.
  intros Hsz Hoff Hlen. unfold field_uint, on_disk, field_bytes. rewrite Hsz.
  rewrite field_in_image by assumption.
  apply swap64_le_decode, length_field. rewrite length_skipn. lia.
Qed.

(** Where the fields the accessors and checks use lie in the file. *)
Lemma on_disk_positions (file : list byte) :
  on_disk file 0 WIAHeader1_t "magic" = firstn 4 file
  /\ on_disk file 0 WIAHeader1_t "version_compatible" = firstn 4 (skipn 0x08 file)
  /\ on_disk file 0 WIAHeader1_t "iso_file_size" = firstn 8 (skipn 0x24 file)
  /\ on_disk file 0 WIAHeader1_t "wia_file_size" = firstn 8 (skipn 0x2C file)
  /\ on_disk file 0x48 WIAHeader2_t "compression_type" = firstn 4 (skipn 0x4C file)
  /\ on_disk file 0x48 WIAHeader2_t "chunk_size" = firstn 4 (skipn 0x54 file).
Proof.
  unfold on_disk, field_bytes. rewrite !skipn_skipn. repeat split; reflexivity.
Qed.

Lemma field_uint_range (t : ctype) (name : string) (image : list byte) :
  0 <= field_uint t name image
    < 256 ^ Z.of_nat (sizeof_field (fields_of t) name).
Proof.
  unfold field_uint, field_bytes.
  set (n := sizeof_field (fields_of t) name).
  pose proof (le_decode_range (firstn n (skipn (offsetof t name) image))) as Hr.
  pose proof (firstn_le_length n (skipn (offsetof t name) image)) as Hn.
  assert (256 ^ Z.of_nat (length (firstn n (skipn (offsetof t name) image)))
          <= 256 ^ Z.of_nat n) by (apply Z.pow_le_mono_r; lia).
  lia.
Qed.

Lemma sample_wia_opens : Initialize sample_wia = Ok sample_reader.
Proof. vm_compute. reflexivity. Qed.

Section Opened.
Variables (file : list byte) (r : WIAFileReader).
Hypothesis Hopen : Initialize file = Ok r.

Lemma opened_GetDataSize :
  GetDataSize r = be_decode (on_disk file 0 WIAHeader1_t "iso_file_size").
Proof.
  destruct (Initialize_headers file r Hopen) as (Hlen & H1 & _).
  unfold GetDataSize. rewrite H1.
  apply (swap64_field WIAHeader1_t "iso_file_size" 0 0x48 file eq_refl);
    cbn; lia.
Qed.

Lemma opened_GetRawSize :
  GetRawSize r = be_decode (on_disk file 0 WIAHeader1_t "wia_file_size").
Proof.
  destruct (Initialize_headers file r Hopen) as (Hlen & H1 & _).
  unfold GetRawSize. rewrite H1.
  apply (swap64_field WIAHeader1_t "wia_file_size" 0 0x48 file eq_refl);
    cbn; lia.
Qed.

Lemma opened_GetBlockSize :
  GetBlockSize r = be_decode (on_disk file 0x48 WIAHeader2_t "chunk_size").
Proof.
  destruct (Initialize_headers file r Hopen) as (Hlen & _ & H2).
  unfold GetBlockSize. rewrite H2.
  apply (swap32_field WIAHeader2_t "chunk_size" 0x48 0xDC file eq_refl);
    cbn; lia.
Qed.

Lemma opened_version_compatible :
  swap32 (version_compatible (m_header_1 r))
  = be_decode (on_disk file 0 WIAHeader1_t "version_compatible").
Proof.
  destruct (Initialize_headers file r Hopen) as (Hlen & H1 & _).
  rewrite H1.
  apply (swap32_field WIAHeader1_t "version_compatible" 0 0x48 file eq_refl);
    cbn; lia.
Qed.
End Opened.

(** ** The accessors *)

(** C1: for every reader that [Initialize] (the spec's open) produced,
    [GetDataSize] (data_size) is the [iso_file_size] field of Header1, the
    eight bytes at 0x24 of the file, read most-significant byte first: the
    big-endian on-disk field converted to host order.  It fits 64 bits, and
    it is the stored field with the bytes of its memory image reversed. *)
Theorem GetDataSize_is_iso_file_size (file : list byte) (r : WIAFileReader) :
  Initialize file = Ok r ->
  GetDataSize r = be_decode (on_disk file 0 WIAHeader1_t "iso_file_size")
  /\ on_disk file 0 WIAHeader1_t "iso_file_size" = firstn 8 (skipn 0x24 file)
  /\ (0x24 + 8 <= length file)%nat
  /\ 0 <= GetDataSize r <= u64_max
  /\ GetDataSize r = be_decode (le_encode 8 (iso_file_size (m_header_1 r))).
Proof.
  intros Hopen. split; [apply opened_GetDataSize; assumption|].
  destruct (on_disk_positions file) as (Pm & Pv & Pi & Pw & Pc & Pk).
  split; [exact Pi|].
  destruct (Initialize_headers file r Hopen) as (Hlen & H1 & _).
  split; [lia|]. split; [apply swap64_range|].
  unfold GetDataSize. apply swap64_memory_image. rewrite H1.
  pose proof (field_uint_range WIAHeader1_t "iso_file_size" (firstn 72 file)) as Hr.
  change (iso_file_size (load_WIAHeader1 (firstn 72 file)))
    with (field_uint WIAHeader1_t "iso_file_size" (firstn 72 file)).
  change (256 ^ Z.of_nat (sizeof_field (fields_of WIAHeader1_t) "iso_file_size"))
    with (u64_max + 1) in Hr.
  lia.
Qed.

Lemma GetDataSize_is_iso_file_size_witness :
  Initialize sample_wia = Ok sample_reader
  /\ GetDataSize sample_reader = 0x200000
  /\ be_decode (on_disk sample_wia 0 WIAHeader1_t "iso_file_size") = 0x200000.
Proof.
  pose proof (GetDataSize_is_iso_file_size sample_wia sample_reader
                sample_wia_opens) as (H & _).
  split; [exact sample_wia_opens|].
  split; [rewrite H|]; vm_compute; reflexivity.
Defined.

(** C7: for every reader that [Initialize] produced, [GetRawSize] (raw_size)
    is the [wia_file_size] field of Header1, the eight bytes at 0x2C of the
    file, converted from big-endian to host order. *)
Theorem GetRawSize_is_wia_file_size (file : list byte) (r : WIAFileReader) :
  Initialize file = Ok r ->
  GetRawSize r = be_decode (on_disk file 0 WIAHeader1_t "wia_file_size")
  /\ on_disk file 0 WIAHeader1_t "wia_file_size" = firstn 8 (skipn 0x2C file)
  /\ (0x2C + 8 <= length file)%nat
  /\ 0 <= GetRawSize r <= u64_max
  /\ GetRawSize r = be_decode (le_encode 8 (wia_file_size (m_header_1 r))).
Proof.
  intros Hopen. split; [apply opened_GetRawSize; assumption|].
  destruct (on_disk_positions file) as (Pm & Pv & Pi & Pw & Pc & Pk).
  split; [exact Pw|].
  destruct (Initialize_headers file r Hopen) as (Hlen & H1 & _).
  split; [lia|]. split; [apply swap64_range|].
  unfold GetRawSize. apply swap64_memory_image. rewrite H1.
  pose proof (field_uint_range WIAHeader1_t "wia_file_size" (firstn 72 file)) as Hr.
  change (wia_file_size (load_WIAHeader1 (firstn 72 file)))
    with (field_uint WIAHeader1_t "wia_file_size" (firstn 72 file)).
  change (256 ^ Z.of_nat (sizeof_field (fields_of WIAHeader1_t) "wia_file_size"))
    with (u64_max + 1) in Hr.
  lia.
Qed.

Lemma GetRawSize_is_wia_file_size_witness :
  Initialize sample_wia = Ok sample_reader
  /\ GetRawSize sample_reader = 0x144
  /\ be_decode (on_disk sample_wia 0 WIAHeader1_t "wia_file_size") = 0x144.
Proof.
  pose proof (GetRawSize_is_wia_file_size sample_wia sample_reader
                sample_wia_opens) as (H & _).
  split; [exact sample_wia_opens|].
  split; [rewrite H|]; vm_compute; reflexivity.
Defined.

(** C8: for every reader that [Initialize] produced, [GetBlockSize]
    (block_size) is the [chunk_size] field of Header2, the four bytes at
    0x48 + 0x0C of the file, converted from big-endian to host order; the
    value fits 32 bits. *)
Theorem GetBlockSize_is_chunk_size (file : list byte) (r : WIAFileReader) :
  Initialize file = Ok r ->
  GetBlockSize r = be_decode (on_disk file 0x48 WIAHeader2_t "chunk_size")
  /\ on_disk file 0x48 WIAHeader2_t "chunk_size" = firstn 4 (skipn 0x54 file)
  /\ (0x54 + 4 <= length file)%nat
  /\ 0 <= GetBlockSize r <= u32_max
  /\ GetBlockSize r = be_decode (le_encode 4 (chunk_size (m_header_2 r))).
Proof.
  intros Hopen. split; [apply opened_GetBlockSize; assumption|].
  destruct (on_disk_positions file) as (Pm & Pv & Pi & Pw & Pc & Pk).
  split; [exact Pk|].
  destruct (Initialize_headers file r Hopen) as (Hlen & _ & H1).
  split; [lia|]. split; [apply swap32_range|].
  unfold GetBlockSize. apply swap32_memory_image. rewrite H1.
  pose proof (field_uint_range WIAHeader2_t "chunk_size" (firstn 220 (skipn 72 file))) as Hr.
  change (chunk_size (load_WIAHeader2 (firstn 220 (skipn 72 file))))
    with (field_uint WIAHeader2_t "chunk_size" (firstn 220 (skipn 72 file))).
  change (256 ^ Z.of_nat (sizeof_field (fields_of WIAHeader2_t) "chunk_size"))
    with (u32_max + 1) in Hr.
  lia.
Qed.

Lemma GetBlockSize_is_chunk_size_witness :
  Initialize sample_wia = Ok sample_reader
  /\ GetBlockSize sample_reader = 0x200000
  /\ be_decode (on_disk sample_wia 0x48 WIAHeader2_t "chunk_size") = 0x200000.
Proof.
  pose proof (GetBlockSize_is_chunk_size sample_wia sample_reader
                sample_wia_opens) as (H & _).
  split; [exact sample_wia_opens|].
  split; [rewrite H|]; vm_compute; reflexivity.
Defined.

(** C9: [HasFastRandomAccessInBlock] is false for every reader, whatever
    file it was opened from and whatever its fields hold. *)
Theorem HasFastRandomAccessInBlock_false (r : WIAFileReader) :
  HasFastRandomAccessInBlock r = false.
Proof. reflexivity. Qed.

(** C10: [IsDataSizeAccurate] is true for every reader, whatever file it was
    opened from and whatever its fields hold. *)
Theorem IsDataSizeAccurate_true (r : WIAFileReader) :
  IsDataSizeAccurate r = true.
Proof. reflexivity. Qed.

(** ** Record layouts *)

(** C6: the packed records have the sizes the static assertions state:
    Header1 0x48, Header2 0xDC, a raw-data entry 0x18, a group entry 0x08
    (two u32: the file offset shifted right by 2, named [data_offset], and
    the compressed size, named [data_size]), a hash-exception entry 0x16 (a
    u16 offset and a 20-byte hash), a purge segment 0x08 (u32 offset, u32
    size), and a partition entry 0x30: a 16-byte key followed by two
    partition data entries of 0x10 bytes each. *)
Theorem record_sizes :
  sizeof WIAHeader1_t = 0x48%nat
  /\ sizeof WIAHeader2_t = 0xDC%nat
  /\ sizeof RawDataEntry_t = 0x18%nat
  /\ (sizeof GroupEntry_t = 0x08%nat
      /\ fields_of GroupEntry_t = [("data_offset", U32); ("data_size", U32)]%string)
  /\ (sizeof HashExceptionEntry_t = 0x16%nat
      /\ fields_of HashExceptionEntry_t
         = [("offset", U16); ("hash", Arr U8 20)]%string)
  /\ (sizeof PurgeSegment_t = 0x08%nat
      /\ fields_of PurgeSegment_t = [("offset", U32); ("size", U32)]%string)
  /\ (sizeof PartitionEntry_t = 0x30%nat
      /\ fields_of PartitionEntry_t
         = [("partition_key", Arr U8 16);
            ("data_entries", Arr PartitionDataEntry_t 2)]%string
      /\ offsetof PartitionEntry_t "data_entries" = 16%nat
      /\ sizeof PartitionDataEntry_t = 0x10%nat).
Proof. repeat split; reflexivity. Qed.

(** ** Byte order of the stored headers *)

Lemma field_uint_on_disk (t : ctype) (name : string) (base size : nat)
      (file : list byte) :
  (offsetof t name + sizeof_field (fields_of t) name <= size)%nat ->
  field_uint t name (firstn size (skipn base file))
  = le_decode (on_disk file base t name).
Proof.
  intros H. unfold field_uint, on_disk, field_bytes.
  rewrite field_in_image by assumption. reflexivity.
Qed.







(** ** Checks made on opening *)

Lemma ReadHeaders_bad_magic (file : list byte) :
  (0x48 <= length file)%nat ->
  le_decode (on_disk file 0 WIAHeader1_t "magic") <> WIA_MAGIC ->
  ReadHeaders file = Err UnsupportedFormat.
Proof.
  intros Hlen Hmagic. unfold ReadHeaders.
  rewrite read_at_long_enough by (cbn; lia).
  change (Z.to_nat (Z.of_nat (sizeof WIAHeader1_t))) with 0x48%nat.
  change (skipn (Z.to_nat 0) file) with (skipn 0 file).
  cbn [bind].
  replace (magic (load_WIAHeader1 (firstn 72 (skipn 0 file))))
    with (le_decode (on_disk file 0 WIAHeader1_t "magic"))
    by (symmetry;
        apply (field_uint_on_disk WIAHeader1_t "magic" 0 0x48 file); cbn; lia).
  destruct (Z.eqb_spec (le_decode (on_disk file 0 WIAHeader1_t "magic")) WIA_MAGIC)
    as [Heq|Hne]; [contradiction | reflexivity].
Qed.

(** C4: [WIA_MAGIC] is 0x01414957, the bytes "WIA\x01" read as a
    little-endian u32.  A file whose first u32, so read, differs from it
    never opens, and once Header1 could be read (the file holds its 0x48
    bytes) [Initialize] fails with UnsupportedFormat. *)
Theorem WIA_MAGIC_mismatch_unsupported :
  WIA_MAGIC = 0x01414957
  /\ le_decode (list_byte_of_string
                  ("WIA" ++ String (Ascii.ascii_of_nat 1) EmptyString))
     = WIA_MAGIC
  /\ (forall file : list byte,
        le_decode (firstn 4 file) <> WIA_MAGIC ->
        (exists e, Initialize file = Err e)
        /\ ((0x48 <= length file)%nat -> Initialize file = Err UnsupportedFormat)).
Proof.
  split; [reflexivity|]. split; [reflexivity|].
  intros file Hmagic.
  assert (Hlong : (0x48 <= length file)%nat ->
                  Initialize file = Err UnsupportedFormat).
  { intros Hlen. unfold Initialize.
    rewrite ReadHeaders_bad_magic; [reflexivity | assumption | exact Hmagic]. }
  split; [|exact Hlong].
  destruct (Nat.le_gt_cases 0x48 (length file)) as [Hlen|Hshort].
  - exists UnsupportedFormat. apply Hlong, Hlen.
  - destruct (Initialize file) as [r|e] eqn:Hopen; [|exists e; reflexivity].
    apply Initialize_headers in Hopen. destruct Hopen as (Hlen & _). lia.
Qed.

Lemma WIA_MAGIC_mismatch_unsupported_witness :
  le_decode (firstn 4 sample_bad_magic) = 0x01414958
  /\ Initialize sample_bad_magic = Err UnsupportedFormat.
Proof.
  split; [vm_compute; reflexivity|].
  apply (proj2 (proj2 WIA_MAGIC_mismatch_unsupported) sample_bad_magic).
  - vm_compute. intros H. discriminate H.
  - apply Nat.leb_le. vm_compute. reflexivity.
Defined.

(** C3: the read-compatibility floor is 0x00080000, and [Initialize] rejects
    every file whose [version_compatible] (bytes 8..11, big-endian) is
    strictly below it; a reader that opened has it at or above the floor. *)
Theorem version_compatible_below_floor_rejected :
  WIA_VERSION_READ_COMPATIBLE = 0x00080000
  /\ (forall file : list byte,
        be_decode (firstn 4 (skipn 0x08 file)) < WIA_VERSION_READ_COMPATIBLE ->
        exists e, Initialize file = Err e)
  /\ (forall (file : list byte) (r : WIAFileReader),
        Initialize file = Ok r ->
        WIA_VERSION_READ_COMPATIBLE <= be_decode (firstn 4 (skipn 0x08 file))).
Proof.
  assert (Hok : forall file r, Initialize file = Ok r ->
            WIA_VERSION_READ_COMPATIBLE <= be_decode (firstn 4 (skipn 0x08 file))).
  { intros file r Hopen.
    destruct (on_disk_positions file) as (_ & Pv & _). rewrite <- Pv.
    rewrite <- (opened_version_compatible file r Hopen).
    apply Initialize_ok in Hopen. destruct Hopen as (Hh & _).
    apply ReadHeaders_ok in Hh. tauto. }
  split; [reflexivity|]. split; [|exact Hok].
  intros file Hlow. destruct (Initialize file) as [r|e] eqn:Hopen.
  - apply Hok in Hopen. lia.
  - exists e. reflexivity.
Qed.

Lemma version_compatible_below_floor_rejected_witness :
  be_decode (firstn 4 (skipn 0x08 sample_old_compat)) = 0x0007FFFF
  /\ Initialize sample_old_compat = Err UnsupportedFormat
  /\ (exists e, Initialize sample_old_compat = Err e)
  /\ WIA_VERSION_READ_COMPATIBLE <= be_decode (firstn 4 (skipn 0x08 sample_wia)).
Proof.
  split; [vm_compute; reflexivity|]. split; [vm_compute; reflexivity|].
  split.
  - apply (proj1 (proj2 version_compatible_below_floor_rejected) sample_old_compat).
    vm_compute. reflexivity.
  - apply (proj2 (proj2 version_compatible_below_floor_rejected)
             sample_wia sample_reader sample_wia_opens).
Defined.

Lemma of_u32_outside (v : Z) :
  ~ In v [0; 1; 2; 3; 4] -> CompressionType.of_u32 v = None.
Proof.
  intros Hout. unfold CompressionType.of_u32.
  repeat match goal with
         | |- context [?a =? ?b] =>
             destruct (Z.eqb_spec a b) as [->|?];
             [exfalso; apply Hout; cbn [In]; tauto|]
         end.
  reflexivity.
Qed.

Lemma of_u32_to_u32 (v : Z) (c : CompressionType.t) :
  CompressionType.of_u32 v = Some c <-> v = CompressionType.to_u32 c.
Proof.
  split.
  - unfold CompressionType.of_u32.
    repeat match goal with
           | |- context [?a =? ?b] => destruct (Z.eqb_spec a b) as [->|?]
           end; intros H; inversion H; reflexivity.
  - intros ->. destruct c; reflexivity.
Qed.

(** C5: the enumerators are None = 0, Purge = 1, Bzip2 = 2, LZMA = 3 and
    LZMA2 = 4, a u32 names an enumerator exactly when it is that
    enumerator's value, and a file whose [compression_type] (bytes
    0x4C..0x4F, big-endian) is none of the five never opens: once the header
    checks have passed, [Initialize] fails with UnsupportedFormat. *)
Theorem compression_type_enumeration :
  (CompressionType.to_u32 CompressionType.None = 0
   /\ CompressionType.to_u32 CompressionType.Purge = 1
   /\ CompressionType.to_u32 CompressionType.Bzip2 = 2
   /\ CompressionType.to_u32 CompressionType.LZMA = 3
   /\ CompressionType.to_u32 CompressionType.LZMA2 = 4)
  /\ (forall (v : Z) (c : CompressionType.t),
        CompressionType.of_u32 v = Some c <-> v = CompressionType.to_u32 c)
  /\ (forall file : list byte,
        ~ In (be_decode (firstn 4 (skipn 0x4C file))) [0; 1; 2; 3; 4] ->
        (exists e, Initialize file = Err e)
        /\ (forall hs, ReadHeaders file = Ok hs ->
                       Initialize file = Err UnsupportedFormat)).
Proof.
  split; [repeat split; reflexivity|]. split; [exact of_u32_to_u32|].
  intros file Hout.
  destruct (ReadHeaders file) as [[h1 h2]|e] eqn:Hh.
  - assert (Hfail : Initialize file = Err UnsupportedFormat).
    { unfold Initialize. rewrite Hh. cbn [bind].
      destruct (ReadHeaders_ok file h1 h2 Hh) as (Hlen & _ & H2 & _).
      destruct (on_disk_positions file) as (_ & _ & _ & _ & Pc & _).
      rewrite <- Pc in Hout.
      rewrite <- (swap32_field WIAHeader2_t "compression_type" 0x48 0xDC file
                    eq_refl) in Hout by (cbn; lia).
      change (field_uint WIAHeader2_t "compression_type"
                (firstn 220 (skipn 72 file)))
        with (compression_type (load_WIAHeader2 (firstn 0xDC (skipn 0x48 file))))
        in Hout.
      rewrite <- H2 in Hout. rewrite (of_u32_outside _ Hout). reflexivity. }
    split; [exists UnsupportedFormat; exact Hfail | intros hs _; exact Hfail].
  - split; [exists e; unfold Initialize; rewrite Hh; reflexivity|].
    intros hs Habs. discriminate Habs.
Qed.

Lemma compression_type_enumeration_witness :
  be_decode (firstn 4 (skipn 0x4C sample_bad_compression)) = 5
  /\ (exists hs, ReadHeaders sample_bad_compression = Ok hs)
  /\ Initialize sample_bad_compression = Err UnsupportedFormat.
Proof.
  assert (Hh : exists hs, ReadHeaders sample_bad_compression = Ok hs)
    by (eexists; vm_compute; reflexivity).
  split; [vm_compute; reflexivity|]. split; [exact Hh|].
  destruct Hh as [hs Hhs].
  apply (proj2 (proj2 (proj2 compression_type_enumeration)
                 sample_bad_compression
                 ltac:(vm_compute; intuition discriminate)) hs Hhs).
Defined.

(** ** The sample through the whole interface *)

Example sample_wia_accepted_at_floor :
  be_decode (firstn 4 (skipn 0x08 sample_wia)) = WIA_VERSION_READ_COMPATIBLE
  /\ Create sample_wia = Some sample_reader.
Proof. split; vm_compute; reflexivity. Qed.

Example sample_wia_truncated :
  Initialize (firstn 0x47 sample_wia) = Err IOError.
Proof. vm_compute. reflexivity. Qed.

Example sample_wia_corrupt :
  Initialize (firstn 0x24 sample_wia ++ [x01] ++ skipn 0x25 sample_wia)
  = Err Corrupt.
Proof. vm_compute. reflexivity. Qed.

(** * The Vanguard client: peeks and pokes *)

Lemma wrap_i32_small (z : Z) : INT_MIN <= z <= INT_MAX -> wrap_i32 z = z.
Proof.
  unfold wrap_i32, INT_MIN, INT_MAX. intros H.
  change (2 ^ 31) with 2147483648. change (2 ^ 32) with 4294967296.
  rewrite Z.mod_small by lia. lia.
Qed.

Lemma wrap_i64_small (z : Z) :
  -9223372036854775808 <= z <= 9223372036854775807 -> wrap_i64 z = z.
Proof.
  unfold wrap_i64. intros H.
  change (2 ^ 63) with 9223372036854775808.
  change (2 ^ 64) with 18446744073709551616.
  rewrite Z.mod_small by lia. lia.
Qed.

Lemma wrap_i32_INT_MAX_succ : wrap_i32 (INT_MAX + 1) = INT_MIN.
Proof. reflexivity. Qed.

(** Evaluate the comparisons of domain names, then split the integer
    tests, closing the branches the hypotheses exclude. *)
Ltac domain_names :=
  cbn [VanguardClientV1.MemoryDomain.name VanguardClientV1.MemoryDomain.size
       VanguardClientV1.MemoryDomain.offset];
  repeat match goal with
         | |- context [String.eqb ?a ?b] =>
             let r := eval vm_compute in (String.eqb a b) in
             change (String.eqb a b) with r
         end;
  cbn [andb].

Ltac vg_unfold :=
  unfold VanguardClientV1.SRAM_SIZE, VanguardClientV1.ARAM_SIZE,
    VanguardClientV1.EXRAM_SIZE, INT_MIN, INT_MAX, u32_max in *.

Ltac int_tests :=
  repeat match goal with
         | |- context [?a <? ?b] => destruct (Z.ltb_spec a b); try lia
         | |- context [?a <=? ?b] => destruct (Z.leb_spec a b); try lia
         end; cbn [andb orb negb].

(** The domain [GetDomain] chooses, by where the range ends. *)
Lemma GetDomain_main (bWii : bool) (address range : Z)
      (domain : VanguardClientV1.MemoryDomain.t) :
  INT_MIN <= address + range <= VanguardClientV1.SRAM_SIZE ->
  VanguardClientV1.GetDomain bWii address range domain
  = {| VanguardClientV1.MemoryDomain.name := "SRAM";
       VanguardClientV1.MemoryDomain.size := VanguardClientV1.SRAM_SIZE;
       VanguardClientV1.MemoryDomain.offset :=
         VanguardClientV1.MemoryDomain.offset domain |}.
Proof.
  intros H. unfold VanguardClientV1.GetDomain.
  rewrite wrap_i32_small by (vg_unfold; lia).
  destruct (Z.leb_spec (address + range) VanguardClientV1.SRAM_SIZE);
    [reflexivity | lia].
Qed.

Lemma GetDomain_past_main (bWii : bool) (address range : Z)
      (domain : VanguardClientV1.MemoryDomain.t) :
  VanguardClientV1.SRAM_SIZE < address + range <= INT_MAX ->
  VanguardClientV1.GetDomain bWii address range domain
  = if bWii then
      {| VanguardClientV1.MemoryDomain.name := "EXRAM";
         VanguardClientV1.MemoryDomain.offset := VanguardClientV1.SRAM_SIZE;
         VanguardClientV1.MemoryDomain.size := VanguardClientV1.EXRAM_SIZE |}
    else
      {| VanguardClientV1.MemoryDomain.name := "ARAM";
         VanguardClientV1.MemoryDomain.size := VanguardClientV1.ARAM_SIZE;
         VanguardClientV1.MemoryDomain.offset :=
           VanguardClientV1.MemoryDomain.offset domain |}.
Proof.
  intros H. unfold VanguardClientV1.GetDomain.
  rewrite wrap_i32_small by (vg_unfold; lia).
  destruct (Z.leb_spec (address + range) VanguardClientV1.SRAM_SIZE);
    [vg_unfold; lia | reflexivity].
Qed.

Ltac unwrap :=
  repeat match goal with
         | |- context [wrap_i32 ?z] =>
             rewrite (wrap_i32_small z) by (vg_unfold; lia)
         | |- context [wrap_i64 ?z] =>
             rewrite (wrap_i64_small z) by (vg_unfold; lia)
         end.

Ltac peek_steps :=
  unfold VanguardClientV1.PeekByte; domain_names;
  cbn [VanguardClientV1.MemoryDomain.fresh VanguardClientV1.MemoryDomain.offset];
  vg_unfold;
  unwrap; unfold ToUInt32_Int32; int_tests; try reflexivity.

Section Peeks.
Variables (Read_U8 ReadARAM : Z -> byte).

(** X1: a peek of one byte below the end of main memory, through the domain
    [GetDomain] chooses for it, reads main memory at that address, on
    GameCube and on Wii. *)
Theorem PeekByte_main_memory (bWii : bool) (address : Z) :
  0 <= address < VanguardClientV1.SRAM_SIZE ->
  VanguardClientV1.PeekByte Read_U8 ReadARAM address
    (VanguardClientV1.GetDomain bWii address 1 VanguardClientV1.MemoryDomain.fresh)
  = Done (Read_U8 address).
Proof.
  intros H. rewrite GetDomain_main by (vg_unfold; lia). peek_steps.
Qed.

(** X2: no test bounds the address from below: a negative address passes
    the range test of the main-memory domain and the conversion of the
    address to an unsigned integer throws. *)
Theorem PeekByte_negative_address_throws (bWii : bool) (address : Z) :
  INT_MIN <= address < 0 ->
  VanguardClientV1.PeekByte Read_U8 ReadARAM address
    (VanguardClientV1.GetDomain bWii address 1 VanguardClientV1.MemoryDomain.fresh)
  = Throw OverflowException.
Proof.
  intros H. rewrite GetDomain_main by (vg_unfold; lia). peek_steps.
Qed.

(** X3: on Wii a one-byte peek at or past the end of main memory reads
    memory at the same absolute address while it lies in the 64 MiB after
    main memory, and gives 0xFF, whatever memory holds, past that. *)
Theorem PeekByte_Wii_extended_memory (address : Z) :
  (VanguardClientV1.SRAM_SIZE <= address
     < VanguardClientV1.SRAM_SIZE + VanguardClientV1.EXRAM_SIZE ->
   VanguardClientV1.PeekByte Read_U8 ReadARAM address
     (VanguardClientV1.GetDomain true address 1 VanguardClientV1.MemoryDomain.fresh)
   = Done (Read_U8 address))
  /\ (VanguardClientV1.SRAM_SIZE + VanguardClientV1.EXRAM_SIZE <= address
        <= INT_MAX ->
      VanguardClientV1.PeekByte Read_U8 ReadARAM address
        (VanguardClientV1.GetDomain true address 1 VanguardClientV1.MemoryDomain.fresh)
      = Done xff).
Proof.
  split; intros H.
  - rewrite GetDomain_past_main by (vg_unfold; lia). peek_steps.
  - destruct (Z.eq_dec address INT_MAX) as [->|Hne]; [reflexivity|].
    rewrite GetDomain_past_main by (vg_unfold; lia). peek_steps.
Qed.

(** X4: on GameCube a one-byte peek at or past the end of main memory reads
    audio RAM at the address less the size of main memory, but only below
    twice the audio RAM size: the index read stays under 8388608, half of
    audio RAM, and any address from 33554432 on gives 0xFF. *)
Theorem PeekByte_GameCube_audio_RAM (address : Z) :
  (VanguardClientV1.SRAM_SIZE <= address < 2 * VanguardClientV1.ARAM_SIZE ->
   VanguardClientV1.PeekByte Read_U8 ReadARAM address
     (VanguardClientV1.GetDomain false address 1 VanguardClientV1.MemoryDomain.fresh)
   = Done (ReadARAM (address - VanguardClientV1.SRAM_SIZE))
   /\ 0 <= address - VanguardClientV1.SRAM_SIZE < 8388608)
  /\ (2 * VanguardClientV1.ARAM_SIZE <= address <= INT_MAX ->
      VanguardClientV1.PeekByte Read_U8 ReadARAM address
        (VanguardClientV1.GetDomain false address 1 VanguardClientV1.MemoryDomain.fresh)
      = Done xff).
Proof.
  split; intros H.
  - split; [|vg_unfold; lia].
    rewrite GetDomain_past_main by (vg_unfold; lia). peek_steps.
  - destruct (Z.eq_dec address INT_MAX) as [->|Hne]; [reflexivity|].
    rewrite GetDomain_past_main by (vg_unfold; lia). peek_steps.
Qed.
End Peeks.

Lemma PeekByte_main_memory_witness :
  VanguardClientV1.PeekByte Z_to_byte (fun _ => x00) 0x1234
    (VanguardClientV1.GetDomain false 0x1234 1 VanguardClientV1.MemoryDomain.fresh)
  = Done x34.
Proof.
  exact (PeekByte_main_memory Z_to_byte (fun _ => x00) false 0x1234
           ltac:(vg_unfold; lia)).
Defined.

Lemma PeekByte_negative_address_throws_witness :
  VanguardClientV1.PeekByte Z_to_byte (fun _ => x00) (-1)
    (VanguardClientV1.GetDomain true (-1) 1 VanguardClientV1.MemoryDomain.fresh)
  = Throw OverflowException.
Proof.
  exact (PeekByte_negative_address_throws Z_to_byte (fun _ => x00) true (-1)
           ltac:(vg_unfold; lia)).
Defined.

Lemma PeekByte_Wii_extended_memory_witness :
  VanguardClientV1.PeekByte Z_to_byte (fun _ => x00) 25165825
    (VanguardClientV1.GetDomain true 25165825 1 VanguardClientV1.MemoryDomain.fresh)
  = Done x01
  /\ VanguardClientV1.PeekByte Z_to_byte (fun _ => x00) 92274688
       (VanguardClientV1.GetDomain true 92274688 1 VanguardClientV1.MemoryDomain.fresh)
     = Done xff.
Proof.
  split.
  - exact (proj1 (PeekByte_Wii_extended_memory Z_to_byte (fun _ => x00) 25165825)
             ltac:(vg_unfold; lia)).
  - exact (proj2 (PeekByte_Wii_extended_memory Z_to_byte (fun _ => x00) 92274688)
             ltac:(vg_unfold; lia)).
Defined.

Lemma PeekByte_GameCube_audio_RAM_witness :
  VanguardClientV1.PeekByte (fun _ => x00) Z_to_byte 25165826
    (VanguardClientV1.GetDomain false 25165826 1 VanguardClientV1.MemoryDomain.fresh)
  = Done x02
  /\ VanguardClientV1.PeekByte (fun _ => x00) Z_to_byte 33554432
       (VanguardClientV1.GetDomain false 33554432 1 VanguardClientV1.MemoryDomain.fresh)
     = Done xff.
Proof.
  split.
  - exact (proj1 (proj1 (PeekByte_GameCube_audio_RAM (fun _ => x00) Z_to_byte 25165826)
                    ltac:(vg_unfold; lia))).
  - exact (proj2 (PeekByte_GameCube_audio_RAM (fun _ => x00) Z_to_byte 33554432)
             ltac:(vg_unfold; lia)).
Defined.

Ltac poke_steps :=
  unfold VanguardClientV1.PokeByte; domain_names;
  cbn [VanguardClientV1.MemoryDomain.fresh VanguardClientV1.MemoryDomain.offset];
  vg_unfold; unwrap; unfold ToUInt32_Int64, u32_max; int_tests.

(** X5: a poke and a one-byte peek at the same address, through the domain
    [GetDomain] chooses, agree: the poke writes the cell the peek reads,
    main memory or audio RAM; where the peek gives 0xFF without reading, the
    poke writes nothing; where the peek throws, the poke throws the same
    exception having written nothing. *)
Theorem PokeByte_writes_where_PeekByte_reads (bWii : bool) (address : Z) (value : byte) :
  INT_MIN <= address <= INT_MAX ->
  let domain :=
    VanguardClientV1.GetDomain bWii address 1 VanguardClientV1.MemoryDomain.fresh in
  match VanguardClientV1.PokeByte address value domain with
  | ([VanguardClientV1.Write_U8 v a], Done _) =>
      v = value
      /\ forall Read_U8 ReadARAM,
           VanguardClientV1.PeekByte Read_U8 ReadARAM address domain = Done (Read_U8 a)
  | ([VanguardClientV1.WriteARAM v a], Done _) =>
      v = value
      /\ forall Read_U8 ReadARAM,
           VanguardClientV1.PeekByte Read_U8 ReadARAM address domain = Done (ReadARAM a)
  | ([], Done _) =>
      forall Read_U8 ReadARAM,
        VanguardClientV1.PeekByte Read_U8 ReadARAM address domain = Done xff
  | ([], Throw e) =>
      forall Read_U8 ReadARAM,
        VanguardClientV1.PeekByte Read_U8 ReadARAM address domain = Throw e
  | _ => False
  end.
Proof.
  intros H domain. subst domain.
  destruct (Z.eq_dec address INT_MAX) as [->|Hmax].
  { destruct bWii; vm_compute; intros; reflexivity. }
  destruct (Z.lt_ge_cases address 0) as [Hneg|Hpos].
  { rewrite GetDomain_main by (vg_unfold; lia).
    poke_steps. intros R A. peek_steps. }
  destruct (Z.lt_ge_cases address VanguardClientV1.SRAM_SIZE) as [Hlow|Hhigh].
  { rewrite GetDomain_main by (vg_unfold; lia).
    poke_steps. split; [reflexivity|]. intros R A. peek_steps. }
  rewrite GetDomain_past_main by (vg_unfold; lia).
  destruct bWii.
  - destruct (Z.lt_ge_cases address
                (VanguardClientV1.SRAM_SIZE + VanguardClientV1.EXRAM_SIZE)).
    + poke_steps. split; [reflexivity|]. intros R A. peek_steps.
    + poke_steps. intros R A. peek_steps.
  - destruct (Z.lt_ge_cases address (2 * VanguardClientV1.ARAM_SIZE)).
    + poke_steps. split; [reflexivity|]. intros R A. peek_steps.
    + poke_steps. intros R A. peek_steps.
Qed.

Lemma PokeByte_writes_where_PeekByte_reads_witness :
  VanguardClientV1.PokeByte 25165826 x07
    (VanguardClientV1.GetDomain false 25165826 1 VanguardClientV1.MemoryDomain.fresh)
  = ([VanguardClientV1.WriteARAM x07 2], Done tt)
  /\ forall Read_U8 ReadARAM,
       VanguardClientV1.PeekByte Read_U8 ReadARAM 25165826
         (VanguardClientV1.GetDomain false 25165826 1
            VanguardClientV1.MemoryDomain.fresh)
       = Done (ReadARAM 2).
Proof.
  split; [reflexivity|].
  exact (proj2 (PokeByte_writes_where_PeekByte_reads false 25165826 x07
                  ltac:(vg_unfold; lia))).
Defined.

(** ** Ranges of bytes *)

Lemma PokeBytes_loop_events (n : nat) (i address : Z) (values : list byte)
      (domain : VanguardClientV1.MemoryDomain.t) (ev : VanguardClientV1.MemEvent) :
  In ev (fst (VanguardClientV1.PokeBytes_loop n i address values domain)) ->
  exists v, In v values
            /\ In ev (fst (VanguardClientV1.PokeByte address v domain)).
Proof.
  revert i. induction n as [|n IH]; intros i Hin; cbn [VanguardClientV1.PokeBytes_loop] in Hin.
  - destruct Hin.
  - destruct (nth_error values (Z.to_nat i)) as [v|] eqn:Hv; [|destruct Hin].
    destruct (VanguardClientV1.PokeByte address v domain) as [ev1 [u|e]] eqn:Hp.
    + destruct (VanguardClientV1.PokeBytes_loop n (i + 1) address values domain)
        as [ev2 st] eqn:Hl.
      cbn [fst] in Hin. apply in_app_or in Hin. destruct Hin as [Hin|Hin].
      * exists v. split; [eapply nth_error_In; eassumption|]. rewrite Hp. exact Hin.
      * apply (IH (i + 1)). rewrite Hl. exact Hin.
    + cbn [fst] in Hin. exists v.
      split; [eapply nth_error_In; eassumption|]. rewrite Hp. exact Hin.
Qed.

(** X6: [PokeBytes] never advances the address: every write it makes is
    the write [PokeByte] makes at the one address it was given, for one of
    the values; and it makes at most one write for each of the [range]
    rounds. *)
Theorem PokeBytes_single_address (address : Z) (values : list byte) (range : Z)
        (domain : VanguardClientV1.MemoryDomain.t) :
  (forall ev,
     In ev (fst (VanguardClientV1.PokeBytes address values range domain)) ->
     exists v, In v values
               /\ VanguardClientV1.PokeByte address v domain = ([ev], Done tt))
  /\ (length (fst (VanguardClientV1.PokeBytes address values range domain))
      <= Z.to_nat range)%nat.
Proof.
  assert (Hone : forall v, (length (fst (VanguardClientV1.PokeByte address v domain)) <= 1)%nat).
  { intros v. unfold VanguardClientV1.PokeByte.
    repeat match goal with
           | |- context [if ?c then _ else _] => destruct c
           | |- context [match ?c with Done _ => _ | Throw _ => _ end] => destruct c
           end; cbn; lia. }
  split.
  - intros ev Hin. unfold VanguardClientV1.PokeBytes in Hin.
    apply PokeBytes_loop_events in Hin. destruct Hin as (v & Hv & Hin).
    exists v. split; [exact Hv|].
    revert Hin. unfold VanguardClientV1.PokeByte.
    repeat match goal with
           | |- context [if ?c then _ else _] => destruct c
           | |- context [match ?c with Done _ => _ | Throw _ => _ end] => destruct c
           end; cbn [fst In]; intros Hin;
      solve [destruct Hin as [<-|[]]; reflexivity | destruct Hin].
  - unfold VanguardClientV1.PokeBytes. generalize 0 at 1 as i.
    induction (Z.to_nat range) as [|n IH]; intros i;
      cbn [VanguardClientV1.PokeBytes_loop]; [cbn; lia|].
    destruct (nth_error values (Z.to_nat i)) as [v|]; [|cbn; lia].
    pose proof (Hone v) as H1.
    destruct (VanguardClientV1.PokeByte address v domain) as [ev1 [u|e]].
    + specialize (IH (i + 1)).
      destruct (VanguardClientV1.PokeBytes_loop n (i + 1) address values domain)
        as [ev2 st].
      cbn [fst] in *. rewrite length_app. lia.
    + cbn [fst] in *. lia.
Qed.

Lemma skipn_nth_error (A : Type) (l : list A) (k : nat) (v : A) :
  nth_error l k = Some v -> skipn k l = v :: skipn (S k) l.
Proof.
  revert k. induction l as [|x l IH]; intros [|k] H; try discriminate.
  - inversion H. reflexivity.
  - cbn [nth_error] in H. cbn [skipn]. rewrite (IH k H). reflexivity.
Qed.

Lemma PokeBytes_loop_constant (n : nat) (i address : Z) (values : list byte)
      (domain : VanguardClientV1.MemoryDomain.t)
      (write : byte -> VanguardClientV1.MemEvent) :
  (forall v, VanguardClientV1.PokeByte address v domain = ([write v], Done tt)) ->
  0 <= i -> (Z.to_nat i + n <= length values)%nat ->
  VanguardClientV1.PokeBytes_loop n i address values domain
  = (map write (firstn n (skipn (Z.to_nat i) values)), Done tt).
Proof.
  intros Hpoke. revert i. induction n as [|n IH]; intros i Hi Hlen.
  - reflexivity.
  - cbn [VanguardClientV1.PokeBytes_loop].
    destruct (nth_error values (Z.to_nat i)) as [v|] eqn:Hv.
    + rewrite Hpoke. rewrite IH by lia.
      replace (Z.to_nat (i + 1)) with (S (Z.to_nat i)) by lia.
      rewrite (skipn_nth_error _ _ _ _ Hv). reflexivity.
    + apply nth_error_None in Hv. lia.
Qed.

(** X7: a [PokeBytes] whose range lies in main memory, of no more bytes
    than the values it is given, writes each of the first [range] values, in
    order, and every one of them at [address] itself: the last value is the
    one that stays. *)
Theorem PokeBytes_main_memory (bWii : bool) (address range : Z) (values : list byte) :
  0 <= address -> 0 <= range ->
  address + range <= VanguardClientV1.SRAM_SIZE ->
  range <= Z.of_nat (length values) ->
  VanguardClientV1.PokeBytes address values range
    (VanguardClientV1.GetDomain bWii address range VanguardClientV1.MemoryDomain.fresh)
  = (map (fun v => VanguardClientV1.Write_U8 v address)
         (firstn (Z.to_nat range) values), Done tt).
Proof.
  intros Ha Hr Hend Hlen.
  rewrite GetDomain_main by (vg_unfold; lia).
  unfold VanguardClientV1.PokeBytes.
  destruct (Z.eq_dec range 0) as [->|Hnz]; [reflexivity|].
  rewrite (PokeBytes_loop_constant _ 0 _ _ _
             (fun v => VanguardClientV1.Write_U8 v address)); [reflexivity | | lia | lia].
  intros v. poke_steps. reflexivity.
Qed.

Lemma PokeBytes_main_memory_witness :
  VanguardClientV1.PokeBytes 3 [x01; x02; x03] 3
    (VanguardClientV1.GetDomain true 3 3 VanguardClientV1.MemoryDomain.fresh)
  = ([VanguardClientV1.Write_U8 x01 3; VanguardClientV1.Write_U8 x02 3;
      VanguardClientV1.Write_U8 x03 3], Done tt).
Proof.
  exact (PokeBytes_main_memory true 3 3 [x01; x02; x03]
           ltac:(lia) ltac:(lia) ltac:(vg_unfold; lia) ltac:(cbn; lia)).
Defined.

Lemma PokeBytes_single_address_witness :
  In (VanguardClientV1.Write_U8 x02 3)
     (fst (VanguardClientV1.PokeBytes 3 [x01; x02; x03] 3
             (VanguardClientV1.GetDomain true 3 3 VanguardClientV1.MemoryDomain.fresh)))
  /\ exists v,
       In v [x01; x02; x03]
       /\ VanguardClientV1.PokeByte 3 v
            (VanguardClientV1.GetDomain true 3 3 VanguardClientV1.MemoryDomain.fresh)
          = ([VanguardClientV1.Write_U8 x02 3], Done tt).
Proof.
  assert (Hin : In (VanguardClientV1.Write_U8 x02 3)
     (fst (VanguardClientV1.PokeBytes 3 [x01; x02; x03] 3
             (VanguardClientV1.GetDomain true 3 3 VanguardClientV1.MemoryDomain.fresh))))
    by (vm_compute; tauto).
  split; [exact Hin|].
  exact (proj1 (PokeBytes_single_address 3 [x01; x02; x03] 3
                  (VanguardClientV1.GetDomain true 3 3
                     VanguardClientV1.MemoryDomain.fresh)) _ Hin).
Defined.

Section PeekRanges.
Variables (Read_U8 ReadARAM : Z -> byte).

(** A range read through a domain in which every byte of it reads main
    memory at its own address. *)
Lemma PeekBytes_loop_absolute (domain : VanguardClientV1.MemoryDomain.t)
      (address : Z) (n : nat) (i : Z) :
  (forall k, i <= k < i + Z.of_nat n ->
     VanguardClientV1.PeekByte Read_U8 ReadARAM (wrap_i32 (address + k)) domain
     = Done (Read_U8 (address + k))) ->
  VanguardClientV1.PeekBytes_loop Read_U8 ReadARAM n i address domain
  = Done (map (fun k => Read_U8 (address + i + Z.of_nat k)) (seq 0 n)).
Proof.
  revert i. induction n as [|n IH]; intros i H; [reflexivity|].
  cbn [VanguardClientV1.PeekBytes_loop].
  rewrite H by lia. cbn [obind].
  rewrite IH by (intros k Hk; apply H; lia). cbn [obind seq map].
  rewrite <- seq_shift, map_map. f_equal. f_equal.
  - f_equal. lia.
  - apply map_ext. intros k. f_equal. lia.
Qed.

(** X8: a range of bytes that lies in main memory is read whole: byte [k]
    of the result is main memory at [address + k], and the result has
    [range] bytes. *)
Theorem PeekBytes_main_memory (bWii : bool) (address range : Z) :
  0 <= address -> 0 <= range ->
  address + range <= VanguardClientV1.SRAM_SIZE ->
  VanguardClientV1.PeekBytes Read_U8 ReadARAM address range
    (VanguardClientV1.GetDomain bWii address range VanguardClientV1.MemoryDomain.fresh)
  = Done (map (fun k => Read_U8 (address + Z.of_nat k)) (seq 0 (Z.to_nat range))).
Proof.
  intros Ha Hr Hend.
  rewrite GetDomain_main by (vg_unfold; lia).
  unfold VanguardClientV1.PeekBytes.
  destruct (Z.ltb_spec range 0); [lia|].
  rewrite PeekBytes_loop_absolute.
  - f_equal. apply map_ext. intros k. f_equal. lia.
  - intros k Hk. rewrite wrap_i32_small by (vg_unfold; lia). peek_steps.
Qed.

(** X9: on Wii a range that runs past the end of main memory, up to the end
    of the 64 MiB after it, is read whole as well, every byte from memory at
    its own absolute address, those below the end of main memory
    included. *)
Theorem PeekBytes_Wii_past_main_memory (address range : Z) :
  0 <= address -> 0 <= range ->
  VanguardClientV1.SRAM_SIZE < address + range
    <= VanguardClientV1.SRAM_SIZE + VanguardClientV1.EXRAM_SIZE ->
  VanguardClientV1.PeekBytes Read_U8 ReadARAM address range
    (VanguardClientV1.GetDomain true address range VanguardClientV1.MemoryDomain.fresh)
  = Done (map (fun k => Read_U8 (address + Z.of_nat k)) (seq 0 (Z.to_nat range))).
Proof.
  intros Ha Hr Hend.
  rewrite GetDomain_past_main by (vg_unfold; lia).
  unfold VanguardClientV1.PeekBytes.
  destruct (Z.ltb_spec range 0); [lia|].
  rewrite PeekBytes_loop_absolute.
  - f_equal. apply map_ext. intros k. f_equal. lia.
  - intros k Hk. rewrite wrap_i32_small by (vg_unfold; lia). peek_steps.
Qed.

(** X10: on GameCube a range that starts in main memory and runs past its
    end is not read at all: the audio RAM domain is chosen for the whole
    range, the first byte's address less the size of main memory is
    negative, and the call throws. *)
Theorem PeekBytes_GameCube_straddle_throws (address range : Z) :
  0 <= address < VanguardClientV1.SRAM_SIZE ->
  VanguardClientV1.SRAM_SIZE < address + range <= INT_MAX ->
  VanguardClientV1.PeekBytes Read_U8 ReadARAM address range
    (VanguardClientV1.GetDomain false address range VanguardClientV1.MemoryDomain.fresh)
  = Throw OverflowException.
Proof.
  intros Ha Hend.
  rewrite GetDomain_past_main by (vg_unfold; lia).
  unfold VanguardClientV1.PeekBytes.
  destruct (Z.ltb_spec range 0); [vg_unfold; lia|].
  destruct (Z.to_nat range) as [|n] eqn:Hn; [vg_unfold; lia|].
  cbn [VanguardClientV1.PeekBytes_loop].
  replace (VanguardClientV1.PeekByte Read_U8 ReadARAM (wrap_i32 (address + 0))
             {| VanguardClientV1.MemoryDomain.size := VanguardClientV1.ARAM_SIZE;
                VanguardClientV1.MemoryDomain.offset :=
                  VanguardClientV1.MemoryDomain.offset VanguardClientV1.MemoryDomain.fresh;
                VanguardClientV1.MemoryDomain.name := "ARAM" |})
    with (@Throw byte OverflowException); [reflexivity|].
  symmetry. rewrite Z.add_0_r. rewrite wrap_i32_small by (vg_unfold; lia). peek_steps.
Qed.
End PeekRanges.

Lemma PeekBytes_main_memory_witness :
  VanguardClientV1.PeekBytes Z_to_byte (fun _ => x00) 3 4
    (VanguardClientV1.GetDomain false 3 4 VanguardClientV1.MemoryDomain.fresh)
  = Done [x03; x04; x05; x06].
Proof.
  exact (PeekBytes_main_memory Z_to_byte (fun _ => x00) false 3 4
           ltac:(lia) ltac:(lia) ltac:(vg_unfold; lia)).
Defined.

Lemma PeekBytes_Wii_past_main_memory_witness :
  VanguardClientV1.PeekBytes Z_to_byte (fun _ => x00) 25165822 4
    (VanguardClientV1.GetDomain true 25165822 4 VanguardClientV1.MemoryDomain.fresh)
  = Done [xfe; xff; x00; x01].
Proof.
  exact (PeekBytes_Wii_past_main_memory Z_to_byte (fun _ => x00) 25165822 4
           ltac:(lia) ltac:(lia) ltac:(vg_unfold; lia)).
Defined.

Lemma PeekBytes_GameCube_straddle_throws_witness :
  VanguardClientV1.PeekBytes Z_to_byte (fun _ => x00) 25165822 4
    (VanguardClientV1.GetDomain false 25165822 4 VanguardClientV1.MemoryDomain.fresh)
  = Throw OverflowException.
Proof.
  exact (PeekBytes_GameCube_straddle_throws Z_to_byte (fun _ => x00) 25165822 4
           ltac:(vg_unfold; lia) ltac:(vg_unfold; lia)).
Defined.

(** ** Command names *)

Ltac split_names s :=
  repeat match goal with
         | |- context [String.eqb s ?lit] =>
             destruct (String.eqb_spec s lit) as [->|?]
         | H : context [String.eqb s ?lit] |- _ =>
             destruct (String.eqb_spec s lit) as [->|?]
         end.

(** X11: in the first revision every command except [UNKNOWN] has exactly
    one name: each enumerator is the answer for some string, and two
    strings with the same answer other than [UNKNOWN] are the same
    string. *)
Theorem CheckCommand_V1_names :
  (forall c, exists s, VanguardClientV1.CheckCommand s = c)
  /\ (forall s1 s2,
        VanguardClientV1.CheckCommand s1 = VanguardClientV1.CheckCommand s2 ->
        VanguardClientV1.CheckCommand s1 <> VanguardClientV1.UNKNOWN ->
        s1 = s2).
Proof.
  split.
  - intros c. destruct c;
      [exists "LOADSTATE"%string | exists "SAVESTATE"%string
      | exists "POKEBYTE"%string | exists "PEEKBYTE"%string
      | exists "POKEBYTES"%string | exists "PEEKBYTES"%string
      | exists "POKEADDRESSES"%string | exists "PEEKADDRESSES"%string
      | exists ""%string]; reflexivity.
  - intros s1 s2. unfold VanguardClientV1.CheckCommand.
    split_names s1; split_names s2; intros Heq Hne;
      solve [reflexivity | discriminate Heq | contradiction Hne; reflexivity].
Qed.

Lemma CheckCommand_V1_names_witness :
  VanguardClientV1.CheckCommand "PEEKBYTE" = VanguardClientV1.PEEKBYTE
  /\ "PEEKBYTE"%string = "PEEKBYTE"%string.
Proof.
  split; [reflexivity|].
  apply (proj2 CheckCommand_V1_names "PEEKBYTE"%string "PEEKBYTE"%string);
    [reflexivity | discriminate].
Defined.

(** X12: in the later revision no string is answered with
    [REMOTE_KEY_SETSYNCSETTINGS], so the case of [OnMessageReceived] for
    it is never selected; every other enumerator is the answer for some
    string. *)
Theorem CheckCommand_never_SETSYNCSETTINGS :
  (forall s,
     VanguardClient.CheckCommand s <> VanguardClient.REMOTE_KEY_SETSYNCSETTINGS)
  /\ (forall c, c <> VanguardClient.REMOTE_KEY_SETSYNCSETTINGS <->
                exists s, VanguardClient.CheckCommand s = c).
Proof.
  assert (Hnever : forall s,
            VanguardClient.CheckCommand s <> VanguardClient.REMOTE_KEY_SETSYNCSETTINGS).
  { intros s. unfold VanguardClient.CheckCommand.
    repeat match goal with
           | |- context [String.eqb s ?lit] => destruct (String.eqb s lit)
           end; discriminate. }
  split; [exact Hnever|].
  intros c. split.
  - intros Hc. destruct c;
      [exists "SAVESAVESTATE"%string | exists "LOADSAVESTATE"%string
      | exists "REMOTE_LOADROM"%string | exists "REMOTE_CLOSEGAME"%string
      | exists "REMOTE_DOMAIN_GETDOMAINS"%string | contradiction Hc; reflexivity
      | exists "REMOTE_KEY_SETSYSTEMCORE"%string
      | exists "REMOTE_EVENT_EMU_MAINFORM_CLOSE"%string
      | exists "REMOTE_EVENT_EMUSTARTED"%string
      | exists "REMOTE_ISNORMALADVANCE"%string
      | exists "REMOTE_EVENT_CLOSEEMULATOR"%string
      | exists "REMOTE_ALLSPECSSENT"%string
      | exists "REMOTE_KEY_SETSYNCSETTINGS"%string]; reflexivity.
  - intros [s <-]. apply Hnever.
Qed.

Lemma CheckCommand_never_SETSYNCSETTINGS_witness :
  VanguardClient.CheckCommand "REMOTE_KEY_SETSYNCSETTINGS" = VanguardClient.UNKNOWN
  /\ exists s, VanguardClient.CheckCommand s = VanguardClient.REMOTE_ISNORMALADVANCE.
Proof.
  split; [reflexivity|].
  apply (proj1 (proj2 CheckCommand_never_SETSYNCSETTINGS
                  VanguardClient.REMOTE_ISNORMALADVANCE)).
  discriminate.
Defined.

(** X13: in the later revision two strings with the same answer other than
    [UNKNOWN] are the same string: a command has one name only. *)
Theorem CheckCommand_one_name (s1 s2 : string) :
  VanguardClient.CheckCommand s1 = VanguardClient.CheckCommand s2 ->
  VanguardClient.CheckCommand s1 <> VanguardClient.UNKNOWN ->
  s1 = s2.
Proof.
  unfold VanguardClient.CheckCommand.
  split_names s1; split_names s2; intros Heq Hne;
    solve [reflexivity | discriminate Heq | contradiction Hne; reflexivity].
Qed.

Lemma CheckCommand_one_name_witness :
  VanguardClient.CheckCommand "REMOTE_LOADROM" = VanguardClient.REMOTE_LOADROM
  /\ "REMOTE_LOADROM"%string = "REMOTE_LOADROM"%string.
Proof.
  split; [reflexivity|].
  apply (CheckCommand_one_name "REMOTE_LOADROM" "REMOTE_LOADROM");
    [reflexivity | discriminate].
Defined.

(** ** The step counter *)

Lemma STEP_CORRUPT_on (core : VanguardClient.CorruptCore) (c : Z) :
  VanguardClient.AutoCorrupt core = true ->
  0 <= c < VanguardClient.ErrorDelay core ->
  VanguardClient.ErrorDelay core <= INT_MAX ->
  VanguardClient.STEP_CORRUPT core c
  = if c + 1 =? VanguardClient.ErrorDelay core
    then (0, [VanguardClient.StepActions_Execute; VanguardClient.GenerateBlastLayer]
               ++ (if VanguardClient.has_blast_layer core
                   then [VanguardClient.BlastLayer_Apply] else []))
    else (c + 1, [VanguardClient.StepActions_Execute]).
Proof.
  intros Hauto Hc Hd. unfold VanguardClient.STEP_CORRUPT.
  rewrite Hauto, wrap_i32_small by (vg_unfold; lia). cbn [andb].
  destruct (Z.leb_spec (VanguardClient.ErrorDelay core) (c + 1));
    destruct (Z.eqb_spec (c + 1) (VanguardClient.ErrorDelay core));
    try lia; reflexivity.
Qed.

Lemma blasts_app (ev1 ev2 : list VanguardClient.StepEvent) :
  VanguardClient.blasts (ev1 ++ ev2)
  = (VanguardClient.blasts ev1 + VanguardClient.blasts ev2)%nat.
Proof.
  unfold VanguardClient.blasts. rewrite filter_app, length_app. reflexivity.
Qed.

Lemma CORE_STEPs_period (d : Z) (cores : list VanguardClient.CorruptCore) (c : Z) :
  Forall (auto_every d) cores ->
  0 <= c < d -> d <= INT_MAX ->
  fst (VanguardClient.CORE_STEPs cores c) = (c + Z.of_nat (length cores)) mod d
  /\ Z.of_nat (VanguardClient.blasts (snd (VanguardClient.CORE_STEPs cores c)))
     = (c + Z.of_nat (length cores)) / d.
Proof.
  intros Hall Hc Hd. revert c Hc.
  induction Hall as [|core cores [Hauto Hdelay] Hall IH]; intros c Hc.
  - cbn [VanguardClient.CORE_STEPs fst snd length]. rewrite Z.add_0_r.
    rewrite Z.mod_small, Z.div_small by lia. split; reflexivity.
  - cbn [VanguardClient.CORE_STEPs length].
    rewrite STEP_CORRUPT_on by (rewrite ?Hdelay; assumption).
    rewrite Hdelay.
    destruct (Z.eqb_spec (c + 1) d) as [Heq|Hne].
    + destruct (IH 0 ltac:(lia)) as [IH1 IH2].
      destruct (VanguardClient.CORE_STEPs cores 0) as [c' ev'].
      cbn [fst snd] in *. rewrite blasts_app.
      rewrite Z.add_0_l in IH1, IH2.
      replace (c + Z.of_nat (S (length cores)))
        with (Z.of_nat (length cores) + 1 * d) by lia.
      rewrite Z.mod_add, Z.div_add by lia.
      split; [exact IH1|]. rewrite <- IH2.
      destruct (VanguardClient.has_blast_layer core);
        unfold VanguardClient.blasts; cbn [app filter length]; lia.
    + destruct (IH (c + 1) ltac:(lia)) as [IH1 IH2].
      destruct (VanguardClient.CORE_STEPs cores (c + 1)) as [c' ev'].
      cbn [fst snd] in *. rewrite blasts_app.
      replace (c + Z.of_nat (S (length cores)))
        with (c + 1 + Z.of_nat (length cores)) by lia.
      split; [exact IH1|]. rewrite <- IH2.
      unfold VanguardClient.blasts; cbn [app filter length]; lia.
Qed.

(** X14: while auto-corrupt is on and the error delay is a constant [d] of
    at least 1, the steps that follow a game load blast once every [d]
    steps: after [n] steps the counter is [n mod d] and [n / d] blast
    layers were asked for. *)
Theorem auto_corrupt_period (d : Z) (cores : list VanguardClient.CorruptCore)
        (count : Z) :
  Forall (auto_every d) cores ->
  1 <= d <= INT_MAX ->
  let n := Z.of_nat (length cores) in
  let run := VanguardClient.CORE_STEPs cores (VanguardClient.LOAD_GAME_START count) in
  fst run = n mod d
  /\ Z.of_nat (VanguardClient.blasts (snd run)) = n / d
  /\ 0 <= fst run < d.
Proof.
  intros Hall Hd n run. subst n run. unfold VanguardClient.LOAD_GAME_START.
  destruct (CORE_STEPs_period d cores 0 Hall ltac:(lia) ltac:(lia)) as [H1 H2].
  rewrite Z.add_0_l in H1, H2. rewrite H1.
  split; [reflexivity|]. split; [exact H2|].
  apply Z.mod_pos_bound. lia.
Qed.

Lemma auto_corrupt_period_witness :
  fst (VanguardClient.CORE_STEPs (repeat (VanguardClient.core_on 3) 7)
         (VanguardClient.LOAD_GAME_START 5)) = 1
  /\ Z.of_nat (VanguardClient.blasts
       (snd (VanguardClient.CORE_STEPs (repeat (VanguardClient.core_on 3) 7)
               (VanguardClient.LOAD_GAME_START 5)))) = 2.
Proof.
  assert (Hall : Forall (auto_every 3) (repeat (VanguardClient.core_on 3) 7))
    by (repeat constructor).
  pose proof (auto_corrupt_period 3 (repeat (VanguardClient.core_on 3) 7) 5 Hall
                ltac:(vg_unfold; lia)) as (H1 & H2 & _).
  split; [exact H1 | exact H2].
Defined.

(** X15: while auto-corrupt is off a step only runs the step actions and
    counts: the steps ask for no blast layer and leave the counter one
    higher each, as long as it stays within an [int]. *)
Theorem no_auto_corrupt_no_blast (cores : list VanguardClient.CorruptCore)
        (count : Z) :
  Forall (fun core => VanguardClient.AutoCorrupt core = false) cores ->
  INT_MIN <= count -> count + Z.of_nat (length cores) <= INT_MAX ->
  VanguardClient.CORE_STEPs cores count
  = (count + Z.of_nat (length cores),
     repeat VanguardClient.StepActions_Execute (length cores)).
Proof.
  intros Hall. revert count.
  induction Hall as [|core cores Hauto Hall IH]; intros count Hlo Hhi.
  - cbn. rewrite Z.add_0_r. reflexivity.
  - cbn [VanguardClient.CORE_STEPs length] in *.
    unfold VanguardClient.STEP_CORRUPT.
    rewrite Hauto, wrap_i32_small by (vg_unfold; lia). cbn [andb].
    rewrite IH by (vg_unfold; lia). cbn [repeat app]. f_equal. lia.
Qed.

Lemma no_auto_corrupt_no_blast_witness :
  VanguardClient.CORE_STEPs (repeat VanguardClient.core_off 3) 10
  = (13, [VanguardClient.StepActions_Execute; VanguardClient.StepActions_Execute;
          VanguardClient.StepActions_Execute]).
Proof.
  exact (no_auto_corrupt_no_blast (repeat VanguardClient.core_off 3) 10
           ltac:(repeat constructor) ltac:(vg_unfold; lia) ltac:(vg_unfold; cbn; lia)).
Defined.

(** X16: while auto-corrupt is on and the error delay is 1 or less, every
    step that follows a game load blasts, and the counter is back at 0
    after it. *)
Theorem auto_corrupt_every_step (cores : list VanguardClient.CorruptCore)
        (count : Z) :
  Forall (fun core => VanguardClient.AutoCorrupt core = true
                      /\ VanguardClient.ErrorDelay core <= 1) cores ->
  let run := VanguardClient.CORE_STEPs cores (VanguardClient.LOAD_GAME_START count) in
  fst run = 0 /\ VanguardClient.blasts (snd run) = length cores.
Proof.
  intros Hall run. subst run. unfold VanguardClient.LOAD_GAME_START.
  induction Hall as [|core cores [Hauto Hd] Hall IH]; [split; reflexivity|].
  assert (Hstep : VanguardClient.STEP_CORRUPT core 0
            = (0, [VanguardClient.StepActions_Execute; VanguardClient.GenerateBlastLayer]
                    ++ (if VanguardClient.has_blast_layer core
                        then [VanguardClient.BlastLayer_Apply] else []))).
  { unfold VanguardClient.STEP_CORRUPT.
    rewrite Hauto. change (wrap_i32 (0 + 1)) with 1. cbn [andb].
    destruct (Z.leb_spec (VanguardClient.ErrorDelay core) 1); [reflexivity | lia]. }
  cbn [VanguardClient.CORE_STEPs]. rewrite Hstep.
  destruct (VanguardClient.CORE_STEPs cores 0) as [c' ev'].
  cbn [fst snd length] in *. destruct IH as [IH1 IH2].
  split; [exact IH1|].
  destruct (VanguardClient.has_blast_layer core);
    unfold VanguardClient.blasts in *; cbn [app filter length];
    rewrite IH2; reflexivity.
Qed.

Lemma auto_corrupt_every_step_witness :
  VanguardClient.blasts
    (snd (VanguardClient.CORE_STEPs (repeat (VanguardClient.core_on 0) 4)
            (VanguardClient.LOAD_GAME_START 9))) = 4%nat.
Proof.
  exact (proj2 (auto_corrupt_every_step (repeat (VanguardClient.core_on 0) 4) 9
                  ltac:(repeat constructor; cbn; lia))).
Defined.

(** ** The name of a state file *)

Lemma LastIndexOf_spec (c : Ascii.ascii) (s : string) :
  let r := VanguardClient.LastIndexOf c s in
  -1 <= r < Z.of_nat (String.length s)
  /\ ~ In c (list_ascii_of_string (VanguardClient.drop (Z.to_nat (r + 1)) s))
  /\ (0 <= r ->
      exists head, s = (head ++ String c (VanguardClient.drop (Z.to_nat (r + 1)) s))%string).
Proof.
  induction s as [|a rest IH]; cbn [VanguardClient.LastIndexOf].
  - cbn. repeat split; try lia; try tauto.
  - cbv zeta in IH. destruct IH as (Hr & Hno & Hhead).
    set (r := VanguardClient.LastIndexOf c rest) in *.
    cbn [String.length]. rewrite Nat2Z.inj_succ.
    destruct (Z.leb_spec 0 r) as [Hpos|Hneg].
    + replace (Z.to_nat (r + 1 + 1)) with (S (Z.to_nat (r + 1))) by lia.
      cbn [VanguardClient.drop].
      split; [lia|]. split; [exact Hno|].
      intros _. destruct (Hhead Hpos) as [head Hs].
      exists (String a head). cbn [String.append]. rewrite <- Hs. reflexivity.
    + assert (r = -1) by lia.
      replace (Z.to_nat (r + 1)) with 0%nat in * by lia.
      destruct (Ascii.eqb_spec a c) as [->|Hne].
      * change (Z.to_nat (0 + 1)) with 1%nat.
        cbn [VanguardClient.drop] in *. destruct rest; cbn [VanguardClient.drop] in *.
        -- split; [lia|]. split; [exact Hno|]. intros _. exists EmptyString. reflexivity.
        -- split; [lia|]. split; [exact Hno|]. intros _. exists EmptyString. reflexivity.
      * change (Z.to_nat (-1 + 1)) with 0%nat.
        split; [lia|]. split; [|lia].
        cbn [VanguardClient.drop list_ascii_of_string In] in *.
        destruct rest; cbn [VanguardClient.drop] in Hno; intros [Heq|Hin];
          solve [congruence | apply Hno; exact Hin].
Qed.

(** X17: the prefix of a state file's name is what follows the last
    backslash of the game name made safe: cutting it never throws, the
    prefix holds no backslash, and the name is the prefix itself or
    something that ends in a backslash followed by the prefix. *)
Theorem state_prefix_after_last_backslash (safe_name : string) :
  exists head prefix,
    VanguardClient.state_prefix safe_name = Done prefix
    /\ safe_name = (head ++ prefix)%string
    /\ ~ In VanguardClient.backslash (list_ascii_of_string prefix)
    /\ (head = EmptyString
        \/ exists h, head = (h ++ String VanguardClient.backslash EmptyString)%string).
Proof.
  pose proof (LastIndexOf_spec VanguardClient.backslash safe_name) as H.
  cbv zeta in H. destruct H as (Hr & Hno & Hhead).
  unfold VanguardClient.state_prefix, VanguardClient.Substring.
  set (r := VanguardClient.LastIndexOf VanguardClient.backslash safe_name) in *.
  destruct (Z.ltb_spec (r + 1) 0); [lia|].
  destruct (Z.ltb_spec (Z.of_nat (String.length safe_name)) (r + 1)); [lia|].
  cbn [orb].
  destruct (Z.leb_spec 0 r) as [Hpos|Hneg].
  - destruct (Hhead Hpos) as [head Hs].
    exists (head ++ String VanguardClient.backslash EmptyString)%string,
           (VanguardClient.drop (Z.to_nat (r + 1)) safe_name).
    split; [reflexivity|]. split.
    + rewrite Hs at 1. clear. induction head as [|a head IH]; cbn [String.append].
      * reflexivity.
      * rewrite <- IH. reflexivity.
    + split; [exact Hno|]. right. exists head. reflexivity.
  - exists EmptyString, safe_name.
    replace (Z.to_nat (r + 1)) with 0%nat in * by lia.
    assert (Hd : VanguardClient.drop 0 safe_name = safe_name)
      by (destruct safe_name; reflexivity).
    rewrite Hd in *.
    split; [reflexivity|]. split; [reflexivity|]. split; [exact Hno|]. left. reflexivity.
Qed.

Example state_path_of_nested_name :
  VanguardClient.state_path "C:\rtc" VanguardClient.backslash "Games\Sub-Title" "key1"
  = Done "C:\rtc\SESSION\Sub-Title.key1.timejump.State"%string.
Proof. reflexivity. Qed.
